(** * Magic circle: particle generator, blend driver and gesture boundary

    A shallow embedding of

      - [src/components/MagicParticles.tsx]  (point generator, particle frame,
                                              the two shaders),
      - [src/services/geminiService.ts]      ([analyzeFrame], ornament data and
                                              frames),
      - [src/components/VisionController.tsx] ([captureAndAnalyze]).

    JavaScript numbers are modelled as mathematical reals ([R]): the
    statements below are about the arithmetic the code writes down, not
    about binary64 or Float32Array rounding.  [Math.random()] is a read
    from a stream of draws indexed by a counter that the code threads
    along; every draw lies in [0,1). *)

From Stdlib Require Import Reals Lra Lia List ZArith String Ascii Bool.
From Equations Require Import Equations.
From Equations.Prop Require Import Logic.
From stdpp Require Import list.
Import ListNotations.

Open Scope R_scope.

(* ===================================================================== *)
(** ** Numbers *)
(* ===================================================================== *)

(** [THREE.MathUtils.lerp(x, y, t)], as three.js defines it. *)
Definition lerp (x y t : R) : R := (1 - t) * x + t * y.

(** [Math.cbrt]: the real cube root, odd in its argument. *)
Definition cbrt (x : R) : R :=
  if Req_dec_T x 0 then 0
  else if Rlt_dec 0 x then Rpower x (/ 3)
  else - Rpower (- x) (/ 3).

(** [Math.floor]: the greatest integer below or equal to [x]. *)
Definition floor (x : R) : Z := Int_part x.

Definition dist2 (x y : R) : R := sqrt (x * x + y * y).
Definition dist3 (x y z : R) : R := sqrt (x * x + y * y + z * z).

(* ===================================================================== *)
(** ** Blend driver *)
(* ===================================================================== *)

(** Modelled from the spec: the enum [MagicState] of [src/types], which is
    not among the sources; the blend target is binary, "0 =
    chaotic/dispersed, 1 = formed/organized". *)
Inductive MagicState := CHAOS | FORMED.

Definition MagicState_eq_dec (a b : MagicState) : {a = b} + {a <> b}.
Proof. decide equality. Defined.

(** [state === MagicState.FORMED ? 1.0 : 0.0] *)
Definition targetVal (state : MagicState) : R :=
  if MagicState_eq_dec state FORMED then 1 else 0.

(** One call of the [useFrame] callback: the props' [state], the clock's
    [elapsedTime] and the [delta] since the previous frame. *)
Record Frame := mkFrame {
  f_state : MagicState;
  f_elapsedTime : R;
  f_delta : R
}.

Module Particles.

Record Uniforms := mkUniforms { uTime : R; uMix : R }.

(** [currentMix] is the ref holding the blend scalar; [shaderRef] and
    [mesh] are React refs, [None] while nothing is mounted.  Of the mesh
    only [rotation.z] is kept. *)
Record State := mkState {
  currentMix : R;
  shaderRef : option Uniforms;
  mesh : option R
}.

(** [useRef(0)], uniforms [{ uTime: 0, uMix: 0 }]. *)
Definition init (mounted : bool) : State :=
  if mounted
  then mkState 0 (Some (mkUniforms 0 0)) (Some 0)
  else mkState 0 None None.

Definition useFrame (s : State) (f : Frame) : State :=
  match shaderRef s with
  | None => s
  | Some _ =>
      let targetVal := targetVal (f_state f) in
      let mix := lerp (currentMix s) targetVal (f_delta f * 1.5) in
      mkState mix
        (Some (mkUniforms (f_elapsedTime f) mix))
        (match mesh s with
         | Some rz => if Rgt_dec mix 0.5 then Some (rz - f_delta f * 0.05)
                      else Some rz
         | None => None
         end)
  end.

End Particles.

Module Ornaments.

(** [meshRef] is [None] while nothing is mounted; of the instanced mesh
    only [rotation.z] is kept (the per-instance matrices the callback
    also rewrites are no part of any statement below). *)
Record State := mkState {
  currentMix : R;
  meshRef : option R
}.

Definition init (mounted : bool) : State :=
  mkState 0 (if mounted then Some 0 else None).

Definition useFrame (s : State) (f : Frame) : State :=
  match meshRef s with
  | None => s
  | Some rz =>
      let targetVal := targetVal (f_state f) in
      let mix := lerp (currentMix s) targetVal (f_delta f * 1.2) in
      mkState mix
        (if Rgt_dec mix 0.9 then Some (rz - f_delta f * 0.05) else Some rz)
  end.

End Ornaments.

(** The states after each frame of a run, oldest first. *)
Fixpoint trace {St : Type} (step : St -> Frame -> St) (s : St) (fs : list Frame)
  : list St :=
  match fs with
  | [] => []
  | f :: fs' => let s' := step s f in s' :: trace step s' fs'
  end.

Definition run {St : Type} (step : St -> Frame -> St) (s : St) (fs : list Frame)
  : St :=
  fold_left step fs s.

(** [n] frames with the same [state] and the same [delta]; the clock adds
    [delta] per frame. *)
Definition steady (state : MagicState) (delta : R) (n : nat) : list Frame :=
  map (fun k => mkFrame state (INR (S k) * delta) delta) (seq 0 n).

(* ===================================================================== *)
(** ** Point generator ([useMemo] of [MagicParticles]) *)
(* ===================================================================== *)

Record Point := mkPoint { px : R; py : R; pz : R }.

(** Helper: point on a circle. *)
Definition getCirclePoint (r angle : R) : Point :=
  mkPoint (cos angle * r) (sin angle * r) 0.

(** Helper: point on a star (pentagram); the upright star has its top tip
    at PI/2.  [offsetAngle] defaults to 0 in the source. *)
Definition getPentagramPoint (r : R) (index : Z) (offsetAngle : R) : Point :=
  let angle := (IZR index * 2 * PI / 5) + (PI / 2) + offsetAngle in
  getCirclePoint r angle.

(** A line between two points. *)
Definition lerpPoint (p1 p2 : Point) (t : R) : Point :=
  mkPoint (px p1 + (px p2 - px p1) * t) (py p1 + (py p2 - py p1) * t) 0.

(** Standard pentagram drawing order. *)
Definition starPath : list Z := [0; 2; 4; 1; 3; 0]%Z.

(** [starPath[k]]; the generator only reads indices 0..5 (see
    [segment_range] below), so the default is never returned. *)
Definition starPath_at (k : Z) : Z := nth (Z.to_nat k) starPath 0%Z.

(** Moon geometry: body circle and cutout circle. *)
Definition cxBody : R := -4.85.
Definition rBody : R := 1.65.
Definition cxCut : R := -3.6.
Definition rCut : R := 1.35.

(** The four parallel typed arrays. *)
Record Arrays := mkArrays {
  chaosArray : list R;
  targetArray : list R;
  sizesArray : list R;
  typesArray : list R
}.

(** One particle, as the loop body computes it before storing it. *)
Record Particle := mkParticle {
  chaosPos : Point;
  targetPos : Point;
  size : R;
  shapeType : R
}.

#[global] Instance R_inhabited : Inhabited R := populate 0.

(** The particle stored at index [i] of the arrays. *)
Definition particleAt (a : Arrays) (i : nat) : Particle :=
  mkParticle
    (mkPoint (chaosArray a !!! (i * 3)%nat)
             (chaosArray a !!! (i * 3 + 1)%nat)
             (chaosArray a !!! (i * 3 + 2)%nat))
    (mkPoint (targetArray a !!! (i * 3)%nat)
             (targetArray a !!! (i * 3 + 1)%nat)
             (targetArray a !!! (i * 3 + 2)%nat))
    (sizesArray a !!! i)
    (typesArray a !!! i).

(** [new Float32Array(n)]: [n] zeros. *)
Definition Float32Array (n : nat) : list R := replicate n 0.

(** A computation that reads [Math.random()]: from the index of the next
    draw to a result and the index after it. *)
Definition Gen (A : Type) : Type := nat -> A * nat.

Definition ret {A} (a : A) : Gen A := fun k => (a, k).

Definition bind {A B} (m : Gen A) (f : A -> Gen B) : Gen B :=
  fun k => let (a, k') := m k in f a k'.

Notation "'LET' x <- m 'IN' f" := (bind m (fun x => f))
  (at level 10, x name, m at level 100, f at level 200).

Section Generator.

(** [random k] is the result of the [k]-th call of [Math.random()]. *)
Variable random : nat -> R.

Definition Math_random : Gen R := fun k => (random k, S k).

(** The state of the rejection loop of [getMoonPoint]. *)
Record MoonLoop := mkMoonLoop {
  valid : bool;
  moon_x : R;
  moon_y : R;
  attempts : nat
}.

(** One pass through the body of the rejection loop: two draws, the two
    distances, the test. *)
Definition moonAttempt (s : MoonLoop) (k : nat) : MoonLoop :=
  let attempts' := S (attempts s) in
  let x := cxBody + (random k - 0.5) * (rBody * 2) in
  let y := (random (S k) - 0.5) * (rBody * 2) in
  let distBody := sqrt ((x - cxBody) ^ 2 + y * y) in
  let distCut := sqrt ((x - cxCut) ^ 2 + y * y) in
  let valid' :=
    if Rle_dec distBody rBody
    then if Rge_dec distCut rCut then true else valid s
    else valid s in
  mkMoonLoop valid' x y attempts'.

(** [while (!valid && attempts < 20) { ... }], with the index of the next
    draw threaded along. *)
Equations? moonLoop (s : MoonLoop) (k : nat) : MoonLoop * nat
  by wf (20 - attempts s)%nat lt :=
moonLoop s k with inspect (negb (valid s) && (attempts s <? 20)%nat) := {
  | exist _ true Hcond => moonLoop (moonAttempt s k) (S (S k))
  | exist _ false Hcond => (s, k) }.
Proof.
  apply andb_prop in Hcond as [_ Hlt].
  apply Nat.ltb_lt in Hlt. simpl. lia.
Qed.

(** Random point in the crescent, by rejection sampling. *)
Definition getMoonPoint : Gen Point := fun k =>
  let (s, k') := moonLoop (mkMoonLoop false 0 0 0) k in
  if negb (valid s)
  then (mkPoint (-6.5) 0 0, k')
  else (mkPoint (moon_x s) (moon_y s) 0, k').

(** The ring branches (1, 4 and 7). *)
Definition ringPoint (r : R) : Gen Point :=
  LET u <- Math_random IN
  let angle := u * PI * 2 in
  ret (getCirclePoint r angle).

(** The star branches (2, 3, 6 and 8). *)
Definition starPoint (r offset : R) : Gen Point :=
  LET u <- Math_random IN
  let segment := floor (u * 5) in
  let idxA := starPath_at segment in
  let idxB := starPath_at (segment + 1) in
  let ptA := getPentagramPoint r idxA offset in
  let ptB := getPentagramPoint r idxB offset in
  LET t <- Math_random IN
  ret (lerpPoint ptA ptB t).

(** The centre fill (branch 9). *)
Definition corePoint : Gen Point :=
  LET u <- Math_random IN
  let rInner := u * 0.5 in
  LET v <- Math_random IN
  let angle := v * PI * 2 in
  ret (mkPoint (cos angle * rInner) (sin angle * rInner) 0).

(** The target position and the shape type, chosen by the draw [p]. *)
Definition targetOf (p : R) : Gen (Point * R) :=
  if Rlt_dec p 0.08 then LET pt <- ringPoint 6.5 IN ret (pt, 0)
  else if Rlt_dec p 0.20 then LET pt <- starPoint 6.5 0 IN ret (pt, 0)
  else if Rlt_dec p 0.30 then LET pt <- starPoint 6.5 (PI / 1) IN ret (pt, 0)
  else if Rlt_dec p 0.40 then LET pt <- ringPoint 3.2 IN ret (pt, 0)
  else if Rlt_dec p 0.60 then LET pt <- getMoonPoint IN ret (pt, 1)
  else if Rlt_dec p 0.72 then LET pt <- starPoint 3.2 0 IN ret (pt, 0)
  else if Rlt_dec p 0.82 then LET pt <- ringPoint 1.2 IN ret (pt, 0)
  else if Rlt_dec p 0.92 then LET pt <- starPoint 1.2 PI IN ret (pt, 0)
  else LET pt <- corePoint IN ret (pt, 0).

(** The body of the [for] loop, up to the stores. *)
Definition genParticle : Gen Particle :=
  LET u1 <- Math_random IN
  let r := 18 * cbrt u1 in
  LET u2 <- Math_random IN
  let theta := u2 * 2 * PI in
  LET u3 <- Math_random IN
  let phi := acos (2 * u3 - 1) in
  let chaos := mkPoint (r * sin phi * cos theta)
                       (r * sin phi * sin theta)
                       (r * cos phi) in
  LET p <- Math_random IN
  LET tgt <- targetOf p IN
  LET s <- Math_random IN
  ret (mkParticle chaos (fst tgt) (s * 0.3 + 0.05) (snd tgt)).

(** The stores of one iteration.  A typed array ignores a store past its
    end, as the list insert does. *)
Definition store (i : nat) (q : Particle) (a : Arrays) : Arrays :=
  mkArrays
    (<[(i * 3 + 2)%nat := pz (chaosPos q)]>
       (<[(i * 3 + 1)%nat := py (chaosPos q)]>
          (<[(i * 3)%nat := px (chaosPos q)]> (chaosArray a))))
    (<[(i * 3 + 2)%nat := pz (targetPos q)]>
       (<[(i * 3 + 1)%nat := py (targetPos q)]>
          (<[(i * 3)%nat := px (targetPos q)]> (targetArray a))))
    (<[i := size q]> (sizesArray a))
    (<[i := shapeType q]> (typesArray a)).

(** [for (let i = ...; i < count; i++)] with [todo] iterations left. *)
Fixpoint forLoop (todo i : nat) (a : Arrays) : Gen Arrays :=
  match todo with
  | O => ret a
  | S todo' =>
      LET q <- genParticle IN
      forLoop todo' (S i) (store i q a)
  end.

Definition generate (count : nat) : Arrays :=
  let a := mkArrays (Float32Array (count * 3)) (Float32Array (count * 3))
                    (Float32Array count) (Float32Array count) in
  fst (forLoop count 0 a 0%nat).

(** The index of the first draw of particle [i]. *)
Fixpoint firstDraw (i : nat) : nat :=
  match i with
  | O => O
  | S j => snd (genParticle (firstDraw j))
  end.

End Generator.

(** Even finer particles for high density. *)
Definition count : nat := Z.to_nat 32000.

(* ===================================================================== *)
(** ** Gesture boundary ([analyzeFrame]) *)
(* ===================================================================== *)

Module Gemini.

(** Modelled from the spec: the type [HandData] of [src/types], which is
    not among the sources: "a tri-valued openness state
    (open/closed/unknown) plus a normalized 2D position". *)
Inductive HandState := OPEN | CLOSED | UNKNOWN.

Record HandData := mkHandData { state : HandState; x : R; y : R }.

(** How a call ends: with a value, or with a thrown error (for an [async]
    function, a rejected promise). *)
Inductive Outcome (E A : Type) :=
| Returns (a : A)
| Throws (e : E).
Arguments Returns {E A} a.
Arguments Throws {E A} e.

(** [try { body } catch (error) { handler }]. *)
Definition try_catch {E A} (body : Outcome E A) (handler : E -> Outcome E A)
  : Outcome E A :=
  match body with
  | Returns a => Returns a
  | Throws e => handler e
  end.

(** A string in a condition: the empty string is falsy. *)
Definition truthy (s : string) : bool :=
  match s with
  | EmptyString => false
  | String _ _ => true
  end.

(** What the code reads of the model's response: [response.text], which
    may be undefined. *)
Record Response := mkResponse { text : option string }.

Definition neutral : HandData := mkHandData UNKNOWN 0.5 0.5.

Section AnalyzeFrame.

Variable Error : Type.

(** [process.env.API_KEY || ''] *)
Variable apiKey : string.

(** [ai.models.generateContent] on the image, awaited. *)
Variable generateContent : string -> Outcome Error Response.

(** [JSON.parse(...) as HandData]; the cast is taken at its word. *)
Variable JSON_parse : string -> Outcome Error HandData.

(** The [try] block: [Returns (Some data)] is its [return data],
    [Returns None] is falling out of it. *)
Definition tryBlock (base64Image : string) : Outcome Error (option HandData) :=
  match generateContent base64Image with
  | Throws e => Throws e
  | Returns response =>
      match text response with
      | Some t =>
          if truthy t
          then match JSON_parse t with
               | Throws e => Throws e
               | Returns data => Returns (Some data)
               end
          else Returns None
      | None => Returns None
      end
  end.

Definition analyzeFrame (base64Image : string) : Outcome Error HandData :=
  if negb (truthy apiKey)
  then Returns neutral
  else
    match try_catch (tryBlock base64Image) (fun error => Returns None) with
    | Returns (Some data) => Returns data
    | Returns None => Returns neutral
    | Throws e => Throws e
    end.

End AnalyzeFrame.

End Gemini.

(* ===================================================================== *)
(** ** Regions of the formed mandala *)
(* ===================================================================== *)

(** Inside the body disk and outside the cutout disk. *)
Definition inCrescent (pt : Point) : Prop :=
  dist2 (px pt - cxBody) (py pt) <= rBody /\
  dist2 (px pt - cxCut) (py pt) >= rCut.

(** On one of the five strokes of the pentagram of radius [r] turned by
    [offset]. *)
Definition onStar (r offset : R) (pt : Point) : Prop :=
  exists (segment : nat) (t : R),
    (segment < 5)%nat /\ 0 <= t < 1 /\
    pt = lerpPoint
           (getPentagramPoint r (nth segment starPath 0%Z) offset)
           (getPentagramPoint r (nth (S segment) starPath 0%Z) offset)
           t.

(** The [j]-th draw of particle [i]: draws 0, 1 and 2 place the chaos
    position, draw 3 is [p]. *)
Definition draw (random : nat -> R) (i j : nat) : R :=
  random (firstDraw random i + j)%nat.

(** The point the rejection loop falls back to. *)
Definition fallback : Point := mkPoint (-6.5) 0 0.

(** The arrays have the lengths they were allocated with for [n]
    particles. *)
Definition sized (n : nat) (a : Arrays) : Prop :=
  length (chaosArray a) = (n * 3)%nat /\
  length (targetArray a) = (n * 3)%nat /\
  length (sizesArray a) = n /\
  length (typesArray a) = n.

(** The draws are results of [Math.random()]. *)
Definition uniform (random : nat -> R) : Prop :=
  forall k, 0 <= random k < 1.


(** The time a run of frames spans: the sum of its deltas. *)
Definition elapsed (fs : list Frame) : R :=
  fold_right (fun f acc => f_delta f + acc) 0 fs.

(* ===================================================================== *)
(** ** Ornament instances ([MagicOrnaments]) *)
(* ===================================================================== *)

Module Instances.

(** [THREE.Vector3] *)
Record Vector3 := mkVector3 { vx : R; vy : R; vz : R }.

(** [THREE.Euler], in radians. *)
Record Euler := mkEuler { ex : R; ey : R; ez : R }.

(** A [THREE.Matrix4], kept as the position, rotation and scale it was
    composed from. *)
Record Matrix4 := compose {
  m_position : Vector3;
  m_rotation : Euler;
  m_scale : Vector3
}.

(** [THREE.Object3D]: the three transform properties and the matrix that
    [updateMatrix] last composed from them. *)
Record Object3D := mkObject3D {
  position : Vector3;
  rotation : Euler;
  scale : Vector3;
  matrix : Matrix4
}.

(** [new THREE.Object3D()] *)
Definition newObject3D : Object3D :=
  mkObject3D (mkVector3 0 0 0) (mkEuler 0 0 0) (mkVector3 1 1 1)
             (compose (mkVector3 0 0 0) (mkEuler 0 0 0) (mkVector3 1 1 1)).

Definition updateMatrix (o : Object3D) : Object3D :=
  mkObject3D (position o) (rotation o) (scale o)
             (compose (position o) (rotation o) (scale o)).

(** [v.lerpVectors(v1, v2, alpha)], as three.js defines it. *)
Definition lerpVectors (v1 v2 : Vector3) (alpha : R) : Vector3 :=
  mkVector3 (vx v1 + (vx v2 - vx v1) * alpha)
            (vy v1 + (vy v2 - vy v1) * alpha)
            (vz v1 + (vz v2 - vz v1) * alpha).

#[global] Instance Vector3_inhabited : Inhabited Vector3 :=
  populate (mkVector3 0 0 0).

#[global] Instance Matrix4_inhabited : Inhabited Matrix4 :=
  populate (compose (mkVector3 0 0 0) (mkEuler 0 0 0) (mkVector3 1 1 1)).

(** 5 outer upright, 5 outer inverted, 5 inner. *)
Definition count : nat := 15.

(** Data storage for dual positions. *)
Record Data := mkData {
  chaosPositions : list Vector3;
  targetPositions : list Vector3;
  rotationSpeeds : list R
}.

(** Target: XY plane. *)
Definition targetPosition (i : nat) : Vector3 :=
  let tz := 0 in
  if (i <? 5)%nat then
    let angle := (INR i * 2 * PI / 5) + (PI / 2) in
    mkVector3 (cos angle * 6.5) (sin angle * 6.5) tz
  else if (i <? 10)%nat then
    let angle := (INR (i - 5) * 2 * PI / 5) + (PI / 2) + PI in
    mkVector3 (cos angle * 6.5) (sin angle * 6.5) tz
  else
    let angle := (INR (i - 10) * 2 * PI / 5) + (PI / 2) in
    mkVector3 (cos angle * 3.2) (sin angle * 3.2) tz.

Section Scene.

Variable random : nat -> R.

(** One iteration of the loop of [useMemo]: three pushes. *)
Definition dataStep (i : nat) (d : Data) : Gen Data :=
  LET a <- Math_random random IN
  LET b <- Math_random random IN
  LET c <- Math_random random IN
  let chaos := mkVector3 ((a - 0.5) * 30) ((b - 0.5) * 30) ((c - 0.5) * 20) in
  let target := targetPosition i in
  LET s <- Math_random random IN
  ret (mkData (chaosPositions d ++ [chaos])
              (targetPositions d ++ [target])
              (rotationSpeeds d ++ [s * 0.02 + 0.01])).

Fixpoint dataLoop (todo i : nat) (d : Data) : Gen Data :=
  match todo with
  | O => ret d
  | S todo' =>
      LET d' <- dataStep i d IN
      dataLoop todo' (S i) d'
  end.

Definition data : Data := fst (dataLoop count 0 (mkData [] [] []) 0%nat).

End Scene.

(** Of the instanced mesh: [rotation.z], the instance matrices and their
    [needsUpdate] flag. *)
Record InstancedMesh := mkInstancedMesh {
  rotation_z : R;
  instanceMatrix : list Matrix4;
  needsUpdate : bool
}.

(** [currentMix] and [meshRef] are refs of the component; [tempObject] is
    the module's one scratch object, shared by every instance and every
    frame. *)
Record State := mkState {
  currentMix : R;
  meshRef : option InstancedMesh;
  tempObject : Object3D
}.

Section Frames.

Variable data : Data.

(** The body of the loop of [useLayoutEffect]. *)
Definition layoutStep (i : nat) (acc : Object3D * list Matrix4)
  : Object3D * list Matrix4 :=
  let (tmp, ms) := acc in
  let tmp' :=
    updateMatrix (mkObject3D (chaosPositions data !!! i) (rotation tmp)
                             (scale tmp) (matrix tmp)) in
  (tmp', <[i := matrix tmp']> ms).

(** The body of the loop of [useFrame], for the prop [state], the blend
    scalar [mix] and the clock's [t]. *)
Definition instanceStep (state : MagicState) (mix t : R) (i : nat)
           (acc : Object3D * list Matrix4) : Object3D * list Matrix4 :=
  let (tmp, ms) := acc in
  let tempPos :=
    lerpVectors (chaosPositions data !!! i) (targetPositions data !!! i) mix in
  let floatZ := sin (t * 2.0 + INR i) * 0.2 * (1 - mix * 0.5) in
  let position := mkVector3 (vx tempPos) (vy tempPos) (vz tempPos + floatZ) in
  let rotation :=
    mkEuler (sin (t + INR i) * 0.5)
            (ey (rotation tmp) + rotationSpeeds data !!! i)
            (ez (rotation tmp)) in
  let scaleBase := 0.5 in
  let scalePulse :=
    if MagicState_eq_dec state FORMED
    then 1 + sin (t * 4 + INR i) * 0.1
    else 1 in
  let finalScale := scaleBase * scalePulse in
  let tmp' :=
    updateMatrix (mkObject3D position rotation
                             (mkVector3 finalScale finalScale finalScale)
                             (matrix tmp)) in
  (tmp', <[i := matrix tmp']> ms).

(** [for (let i = ...; i < count; i++)] with [todo] iterations left. *)
Fixpoint forEach (step : nat -> Object3D * list Matrix4 -> Object3D * list Matrix4)
         (todo i : nat) (acc : Object3D * list Matrix4)
  : Object3D * list Matrix4 :=
  match todo with
  | O => acc
  | S todo' => forEach step todo' (S i) (step i acc)
  end.

Definition useLayoutEffect (s : State) : State :=
  match meshRef s with
  | None => s
  | Some m =>
      let (tmp, ms) := forEach layoutStep count 0 (tempObject s, instanceMatrix m) in
      mkState (currentMix s) (Some (mkInstancedMesh (rotation_z m) ms true)) tmp
  end.

Definition useFrame (s : State) (f : Frame) : State :=
  match meshRef s with
  | None => s
  | Some m =>
      let targetVal := targetVal (f_state f) in
      let mix := lerp (currentMix s) targetVal (f_delta f * 1.2) in
      let t := f_elapsedTime f in
      let (tmp, ms) :=
        forEach (instanceStep (f_state f) mix t) count 0
                (tempObject s, instanceMatrix m) in
      let rz := if Rgt_dec mix 0.9 then rotation_z m - f_delta f * 0.05
                else rotation_z m in
      mkState mix (Some (mkInstancedMesh rz ms true)) tmp
  end.

End Frames.

(** What [Ornaments.State] keeps of a state. *)
Definition forget (s : State) : Ornaments.State :=
  Ornaments.mkState (currentMix s)
    (match meshRef s with Some m => Some (rotation_z m) | None => None end).

(** The sum of the first [n] rotation speeds. *)
Definition speedSum (d : Data) (n : nat) : R :=
  fold_right Rplus 0 (take n (rotationSpeeds d)).

End Instances.

(** The scratch object after the iterations [i], ..., [i + k - 1] of a loop
    whose iteration [j] turns the scratch object [o] into [g j o]. *)
Fixpoint chain (g : nat -> Instances.Object3D -> Instances.Object3D)
         (i k : nat) (o : Instances.Object3D) : Instances.Object3D :=
  match k with
  | O => o
  | S k' => chain g (S i) k' (g i o)
  end.

(** The chaos position of the ornament whose first draw has index [k]. *)
Definition chaosAt (random : nat -> R) (k : nat) : Instances.Vector3 :=
  Instances.mkVector3 ((random k - 0.5) * 30) ((random (S k) - 0.5) * 30)
                      ((random (S (S k)) - 0.5) * 20).

(** A vector as a point of the particles' plane. *)
Definition pointOf (v : Instances.Vector3) : Point :=
  mkPoint (Instances.vx v) (Instances.vy v) (Instances.vz v).

(** One iteration of the frame loop, as a function of the scratch object
    alone. *)
Definition frameObject (d : Instances.Data) (state : MagicState) (mix t : R)
           (i : nat) (tmp : Instances.Object3D) : Instances.Object3D :=
  fst (Instances.instanceStep d state mix t i (tmp, [])).

(** One iteration of the layout loop, as a function of the scratch object
    alone. *)
Definition layoutObject (d : Instances.Data) (i : nat)
           (tmp : Instances.Object3D) : Instances.Object3D :=
  fst (Instances.layoutStep d i (tmp, [])).

(* ===================================================================== *)
(** ** Particle shaders ([particleVertexShader], [particleFragmentShader]) *)
(* ===================================================================== *)

Module Shader.

(** A GLSL [vec3] is kept as a [Point]: positions and colours alike. *)
Definition vec3 : Type := Point.

Record vec4 := mkVec4 { x4 : R; y4 : R; z4 : R; w4 : R }.

(** GLSL [mix(x, y, a)]. *)
Definition mix (x y a : R) : R := x * (1 - a) + y * a.

Definition mix3 (u v : vec3) (a : R) : vec3 :=
  mkPoint (mix (px u) (px v) a) (mix (py u) (py v) a) (mix (pz u) (pz v) a).

(** GLSL [clamp(x, minVal, maxVal)]. *)
Definition clamp (x minVal maxVal : R) : R := Rmin (Rmax x minVal) maxVal.

(** GLSL [smoothstep(edge0, edge1, x)]. *)
Definition smoothstep (edge0 edge1 x : R) : R :=
  let t := clamp ((x - edge0) / (edge1 - edge0)) 0 1 in
  t * t * (3 - 2 * t).

(** GLSL [pow(x, y)], on the non-negative [x] and positive [y] the
    fragment shader feeds it. *)
Definition pow (x y : R) : R :=
  if Req_dec_T x 0 then 0 else Rpower x y.

(** The attributes of one vertex. *)
Record Attributes := mkAttributes {
  aChaosPos : vec3;
  aTargetPos : vec3;
  aSize : R;
  aShapeType : R
}.

(** What the vertex shader writes: [pos] is the position it hands to the
    matrices. *)
Record Vertex := mkVertex {
  pos : vec3;
  gl_Position : vec4;
  gl_PointSize : R;
  vColor : vec3
}.

Section Main.

(** The two matrices three.js supplies, as the maps they apply. *)
Variable modelViewMatrix : vec4 -> vec4.
Variable projectionMatrix : vec4 -> vec4.

Variables uTime uMix : R.

Definition vertexMain (a : Attributes) : Vertex :=
  (* Interpolate position *)
  let pos0 := mix3 (aChaosPos a) (aTargetPos a) uMix in
  (* Chaos has more noise, Formed has subtle breathing *)
  let noiseAmp := mix 0.5 0.02 uMix in
  let x := px pos0 + sin (uTime * 1.0 + py pos0 * 0.5) * noiseAmp in
  let y := py pos0 + cos (uTime * 0.8 + x * 0.5) * noiseAmp in
  let z := pz pos0 + sin (uTime * 1.5 + x) * noiseAmp in
  let pos := mkPoint x y z in
  let mvPosition := modelViewMatrix (mkVec4 x y z 1.0) in
  (* Size attenuation *)
  let sizeMix := mix 1.2 0.7 uMix in
  let pointSize := aSize a * sizeMix * (120.0 / - z4 mvPosition) in
  (* Twinkle effect *)
  let alpha := 0.5 + 0.5 * sin (uTime * 3.0 + px (aChaosPos a) * 10.0) in
  let colorChaos := mkPoint 0.8 0.9 1.0 in
  let colorFormed :=
    if Rgt_dec (aShapeType a) 0.5
    then mkPoint 1.0 0.85 0.4
    else if Rgt_dec (aSize a) 0.3
         then if Rgt_dec uMix 0.8
              then mkPoint 1.0 0.95 0.8
              else mkPoint 1.0 0.7 0.85
         else mkPoint 1.0 0.7 0.85 in
  let c := mix3 colorChaos colorFormed uMix in
  mkVertex pos (projectionMatrix mvPosition) pointSize
           (mkPoint (px c * alpha) (py c * alpha) (pz c * alpha)).

End Main.

(** The fragment shader on one fragment of a point: [None] is [discard],
    otherwise [gl_FragColor]. *)
Definition fragmentMain (vColor : vec3) (gl_PointCoord : R * R) : option vec4 :=
  let cx := 2.0 * fst gl_PointCoord - 1.0 in
  let cy := 2.0 * snd gl_PointCoord - 1.0 in
  let dist := cx * cx + cy * cy in
  if Rgt_dec dist 1.0 then None
  else
    let alpha := 1.0 - smoothstep 0.0 1.0 dist in
    let alpha := pow alpha 1.5 in
    Some (mkVec4 (px vColor) (py vColor) (pz vColor) alpha).

(** The buffer attributes of particle [i]. *)
Definition attributes (a : Arrays) (i : nat) : Attributes :=
  let q := particleAt a i in
  mkAttributes (chaosPos q) (targetPos q) (size q) (shapeType q).

End Shader.

(* ===================================================================== *)
(** ** Capture loop ([VisionController]) *)
(* ===================================================================== *)

Module Vision.

Import Gemini.

(** [s.split(sep)] for a one-character separator. *)
Fixpoint split (sep : ascii) (s : string) : list string :=
  match s with
  | EmptyString => [EmptyString]
  | String c s' =>
      if Ascii.eqb c sep then EmptyString :: split sep s'
      else match split sep s' with
           | [] => [String c EmptyString]
           | h :: t => String c h :: t
           end
  end.

(** What a call of [captureAndAnalyze] does to its surroundings, in
    order. *)
Inductive Effect :=
| SetIsProcessing (b : bool)
| OnUpdate (data : HandData)
| ConsoleError.

Section Controller.

Variable Error : Type.

(** A computation: the effects it had, and how it ended. *)
Definition Comp (A : Type) : Type := list Effect * Outcome Error A.

Definition cret {A} (a : A) : Comp A := ([], Returns a).

Definition cbind {A B} (m : Comp A) (f : A -> Comp B) : Comp B :=
  match m with
  | (e1, Returns a) => let (e2, r) := f a in (e1 ++ e2, r)
  | (e1, Throws e) => (e1, Throws e)
  end.

Definition emit (ef : Effect) : Comp unit := ([ef], Returns tt).

Definition call {A} (o : Outcome Error A) : Comp A := ([], o).

(** [try { body } catch (e) { handler } finally { finalizer }] *)
Definition tryCatchFinally (body : Comp unit) (handler : Error -> Comp unit)
           (finalizer : Comp unit) : Comp unit :=
  let caught :=
    match body with
    | (e1, Throws e) => let (e2, r) := handler e in (e1 ++ e2, r)
    | (e1, Returns a) => (e1, Returns a)
    end in
  let (e1, r) := caught in
  let (e2, r2) := finalizer in
  (e1 ++ e2, match r2 with Throws e => Throws e | Returns _ => r end).

(** The 2d context: [drawImage] may throw. *)
Record Context2D := mkContext2D { drawImage : Outcome Error unit }.

(** The hidden canvas: [getContext('2d')] may give null, [toDataURL] may
    throw. *)
Record Canvas := mkCanvas {
  getContext : option Context2D;
  toDataURL : Outcome Error string
}.

(** The refs at the time of a call: of the video, its [readyState]. *)
Record Refs := mkRefs {
  videoRef : option Z;
  canvasRef : option Canvas
}.

(** [analyzeFrame] on what [split(',')[1]] gives, [None] being
    [undefined]. *)
Variable analyzeFrame : option string -> Outcome Error HandData.

(** The parent's callback. *)
Variable onUpdate : HandData -> Outcome Error unit.

Definition captureAndAnalyze (isProcessing : bool) (refs : Refs) : Comp unit :=
  match videoRef refs, canvasRef refs with
  | Some readyState, Some canvas =>
      if isProcessing then cret tt
      else if negb (readyState =? 4)%Z then cret tt
      else
        cbind (emit (SetIsProcessing true)) (fun _ =>
        tryCatchFinally
          (match getContext canvas with
           | Some ctx =>
               cbind (call (drawImage ctx)) (fun _ =>
               cbind (call (toDataURL canvas)) (fun url =>
               let base64 := nth_error (split ","%char url) 1 in
               cbind (call (analyzeFrame base64)) (fun result =>
               cbind (emit (OnUpdate result)) (fun _ =>
               call (onUpdate result)))))
           | None => cret tt
           end)
          (fun e => emit ConsoleError)
          (emit (SetIsProcessing false)))
  | _, _ => cret tt
  end.

(** The state [isProcessing] once the updates of [effs] are applied. *)
Definition isProcessingAfter (before : bool) (effs : list Effect) : bool :=
  fold_left (fun b ef => match ef with SetIsProcessing b' => b' | _ => b end)
            effs before.

(** The signal the parent holds once the updates of [effs] are applied. *)
Definition consumed (before : HandData) (effs : list Effect) : HandData :=
  fold_left (fun d ef => match ef with OnUpdate d' => d' | _ => d end)
            effs before.

(** Poll cycles that do not overlap: each call ends before the next
    interval tick, and sees the state the previous one left. *)
Fixpoint poll (isProcessing : bool) (cycles : list Refs) : list Effect :=
  match cycles with
  | [] => []
  | refs :: rest =>
      let effs := fst (captureAndAnalyze isProcessing refs) in
      effs ++ poll (isProcessingAfter isProcessing effs) rest
  end.

End Controller.

Arguments mkContext2D {Error} _.
Arguments drawImage {Error} _.
Arguments mkCanvas {Error} _ _.
Arguments getContext {Error} _.
Arguments toDataURL {Error} _.
Arguments mkRefs {Error} _ _.
Arguments videoRef {Error} _.
Arguments canvasRef {Error} _.
Arguments captureAndAnalyze {Error} _ _ _ _.
Arguments poll {Error} _ _ _ _.

End Vision.

(** Whether the character [c] occurs in [s]. *)
Fixpoint occurs (c : ascii) (s : string) : bool :=
  match s with
  | EmptyString => false
  | String c' s' => Ascii.eqb c' c || occurs c s'
  end.

(* ===================================================================== *)
(** * Properties of the blend driver *)
(* ===================================================================== *)

Lemma targetVal_binary (state : MagicState) :
  targetVal state = 0 \/ targetVal state = 1.
Proof. destruct state; [left | right]; reflexivity. Qed.

Lemma lerp_unit_interval (x y t : R) :
  0 <= x <= 1 -> 0 <= y <= 1 -> 0 <= t <= 1 -> 0 <= lerp x y t <= 1.
Proof. unfold lerp. intros Hx Hy Ht. split; nra. Qed.

Lemma targetVal_unit_interval (state : MagicState) : 0 <= targetVal state <= 1.
Proof. destruct (targetVal_binary state) as [-> | ->]; lra. Qed.

Lemma particles_frame_unit_interval (s : Particles.State) (f : Frame) :
  0 <= f_delta f * 1.5 <= 1 ->
  0 <= Particles.currentMix s <= 1 ->
  0 <= Particles.currentMix (Particles.useFrame s f) <= 1.
Proof.
  intros Hd Hs. unfold Particles.useFrame.
  destruct (Particles.shaderRef s); simpl; [| exact Hs].
  apply lerp_unit_interval; auto using targetVal_unit_interval.
Qed.

Lemma ornaments_frame_unit_interval (s : Ornaments.State) (f : Frame) :
  0 <= f_delta f * 1.2 <= 1 ->
  0 <= Ornaments.currentMix s <= 1 ->
  0 <= Ornaments.currentMix (Ornaments.useFrame s f) <= 1.
Proof.
  intros Hd Hs. unfold Ornaments.useFrame.
  destruct (Ornaments.meshRef s); simpl; [| exact Hs].
  apply lerp_unit_interval; auto using targetVal_unit_interval.
Qed.

Lemma particles_trace_unit_interval (fs : list Frame) :
  Forall (fun f => 0 <= f_delta f * 1.5 <= 1) fs ->
  forall s, 0 <= Particles.currentMix s <= 1 ->
  Forall (fun s' => 0 <= Particles.currentMix s' <= 1)
         (trace Particles.useFrame s fs).
Proof.
  induction 1 as [| f fs Hf _ IH]; intros s Hs; simpl; constructor.
  - now apply particles_frame_unit_interval.
  - apply IH. now apply particles_frame_unit_interval.
Qed.

(** The ornaments' driver, with its own rate, keeps the same invariant. *)
Lemma ornaments_trace_unit_interval (fs : list Frame) :
  Forall (fun f => 0 <= f_delta f * 1.2 <= 1) fs ->
  forall s, 0 <= Ornaments.currentMix s <= 1 ->
  Forall (fun s' => 0 <= Ornaments.currentMix s' <= 1)
         (trace Ornaments.useFrame s fs).
Proof.
  induction 1 as [| f fs Hf _ IH]; intros s Hs; simpl; constructor.
  - now apply ornaments_frame_unit_interval.
  - apply IH. now apply ornaments_frame_unit_interval.
Qed.

(** C1, as the code has it: started at 0, with a target that is 0 or 1 on
    every frame, the blend scalar is in [0,1] after every frame, as long as
    the lerp factor [delta * 1.5] of every frame is in [0,1].  Nothing
    clamps the factor. *)
Theorem blend_scalar_unit_interval (mounted : bool) (fs : list Frame) :
  Forall (fun f => 0 <= f_delta f * 1.5 <= 1) fs ->
  Forall (fun s => 0 <= Particles.currentMix s <= 1)
         (trace Particles.useFrame (Particles.init mounted) fs).
Proof.
  intros Hfs. apply particles_trace_unit_interval; [exact Hfs |].
  destruct mounted; simpl; lra.
Qed.

Lemma blend_scalar_unit_interval_witness :
  Forall (fun s => 0 <= Particles.currentMix s <= 1)
         (trace Particles.useFrame (Particles.init true)
                [mkFrame FORMED 0.5 0.5; mkFrame CHAOS 1 0.5]).
Proof.
  apply (blend_scalar_unit_interval true).
  repeat constructor; simpl; lra.
Defined.

(** C1 as stated fails: one frame with target 1 and a delta of one second
    takes the blend scalar from 0 to 1.5. *)
Lemma blend_scalar_overshoots :
  let fs := [mkFrame FORMED 1 1] in
  Forall (fun f => 0 <= f_delta f) fs /\
  (targetVal FORMED = 1) /\
  ~ Forall (fun s => 0 <= Particles.currentMix s <= 1)
           (trace Particles.useFrame (Particles.init true) fs).
Proof.
  split; [| split].
  - repeat constructor; simpl; lra.
  - reflexivity.
  - intros H. inversion H as [| s l [_ Hle] _]; subst.
    simpl in Hle. unfold lerp, targetVal in Hle. simpl in Hle. lra.
Qed.

Lemma steady_S (state : MagicState) (delta : R) (n : nat) :
  steady state delta (S n) =
  steady state delta n ++ [mkFrame state (INR (S n) * delta) delta].
Proof. unfold steady. rewrite seq_S, map_app. reflexivity. Qed.

Lemma run_snoc {St : Type} (step : St -> Frame -> St) (s : St) fs f :
  run step s (fs ++ [f]) = step (run step s fs) f.
Proof. unfold run. rewrite fold_left_app. reflexivity. Qed.

(** With the target held at 1 the driver is a geometric sequence. *)
Lemma particles_steady_formed (delta : R) (n : nat) :
  exists u m,
    run Particles.useFrame (Particles.init true) (steady FORMED delta n) =
    Particles.mkState (1 - (1 - delta * 1.5) ^ n) (Some u) m.
Proof.
  induction n as [| n (u & m & IH)].
  - exists (Particles.mkUniforms 0 0), (Some 0). simpl. f_equal. lra.
  - rewrite steady_S, run_snoc, IH. unfold Particles.useFrame. simpl.
    eexists _, _. f_equal.
    unfold lerp, targetVal. simpl. ring.
Qed.

Lemma ornaments_steady_formed (delta : R) (n : nat) :
  exists rz,
    run Ornaments.useFrame (Ornaments.init true) (steady FORMED delta n) =
    Ornaments.mkState (1 - (1 - delta * 1.2) ^ n) (Some rz).
Proof.
  induction n as [| n (rz & IH)].
  - exists 0. unfold Ornaments.init. simpl. f_equal. lra.
  - rewrite steady_S, run_snoc, IH. unfold Ornaments.useFrame. simpl.
    destruct (Rgt_dec _ _); eexists; f_equal; unfold lerp, targetVal; simpl; ring.
Qed.

Lemma particles_mix_formed (delta : R) (n : nat) :
  Particles.currentMix
    (run Particles.useFrame (Particles.init true) (steady FORMED delta n)) =
  1 - (1 - delta * 1.5) ^ n.
Proof.
  destruct (particles_steady_formed delta n) as (u & m & ->). reflexivity.
Qed.

Lemma ornaments_mix_formed (delta : R) (n : nat) :
  Ornaments.currentMix
    (run Ornaments.useFrame (Ornaments.init true) (steady FORMED delta n)) =
  1 - (1 - delta * 1.2) ^ n.
Proof.
  destruct (ornaments_steady_formed delta n) as (rz & ->). reflexivity.
Qed.





Lemma pow_49_50_300 : (49 / 50) ^ 300 < / 100.
Proof.
  assert (H : 100 * 49 ^ 300 < 50 ^ 300).
  { rewrite !pow_IZR, <- mult_IZR. apply IZR_lt. vm_compute. reflexivity. }
  assert (H50 : 0 < 50 ^ 300) by (apply pow_lt; lra).
  unfold Rdiv. rewrite Rpow_mult_distr, pow_inv.
  revert H H50. generalize (49 ^ 300) (50 ^ 300). intros a b H Hb.
  apply Rmult_lt_reg_r with (r := b); [exact Hb |].
  rewrite Rmult_assoc, Rinv_l by lra. lra.
Qed.

(** C8: five seconds at 60 frames per second with the target held at 1,
    under the ornaments' rate 1.2, take the blend scalar from 0 to above
    0.99 (and so does the particles' faster rate 1.5). *)
Theorem blend_scalar_after_five_seconds :
  Ornaments.currentMix
    (run Ornaments.useFrame (Ornaments.init true) (steady FORMED (1 / 60) 300))
  > 0.99 /\
  Particles.currentMix
    (run Particles.useFrame (Particles.init true) (steady FORMED (1 / 60) 300))
  > 0.99.
Proof.
  rewrite ornaments_mix_formed, particles_mix_formed.
  assert (H98 : 1 - 1 / 60 * 1.2 = 49 / 50) by lra.
  assert (H975 : 0 <= 1 - 1 / 60 * 1.5 <= 49 / 50) by lra.
  pose proof pow_49_50_300 as Hp.
  split.
  - rewrite H98. lra.
  - assert ((1 - 1 / 60 * 1.5) ^ 300 <= (49 / 50) ^ 300)
      by (apply pow_incr; exact H975).
    lra.
Qed.

(** C5, as the code has it: on a frame with the refs mounted, the
    ornaments turn by [delta * 0.05] exactly when their blend scalar, as
    updated on that frame, exceeds 0.9, and the particles exactly when
    theirs exceeds 0.5; otherwise the rotation is left as it was. *)
Theorem rotation_thresholds (mix rz : R) (u : Particles.Uniforms) (f : Frame) :
  let o' := Ornaments.useFrame (Ornaments.mkState mix (Some rz)) f in
  let p' := Particles.useFrame (Particles.mkState mix (Some u) (Some rz)) f in
  (Ornaments.currentMix o' > 0.9 ->
     Ornaments.meshRef o' = Some (rz - f_delta f * 0.05)) /\
  (Ornaments.currentMix o' <= 0.9 -> Ornaments.meshRef o' = Some rz) /\
  (Particles.currentMix p' > 0.5 ->
     Particles.mesh p' = Some (rz - f_delta f * 0.05)) /\
  (Particles.currentMix p' <= 0.5 -> Particles.mesh p' = Some rz).
Proof.
  unfold Ornaments.useFrame, Particles.useFrame. simpl.
  repeat split; intros H; destruct (Rgt_dec _ _); try reflexivity; lra.
Qed.

(** C5 as stated fails for the particles: a frame that leaves their blend
    scalar at 0.745, below 0.9, still turns the formation. *)
Lemma particles_rotate_below_0_9 :
  let f := mkFrame FORMED 1 0.1 in
  let p' := Particles.useFrame
              (Particles.mkState 0.7 (Some (Particles.mkUniforms 0 0.7)) (Some 0)) f in
  Particles.currentMix p' <= 0.9 /\
  Particles.mesh p' = Some (0 - f_delta f * 0.05) /\
  Particles.mesh p' <> Some 0.
Proof.
  unfold Particles.useFrame. simpl. unfold lerp, targetVal. simpl.
  destruct (Rgt_dec _ _) as [H | H]; [| exfalso; lra].
  repeat split; [lra |]. intros Heq. injection Heq. lra.
Qed.

(* ===================================================================== *)
(** * Properties of the point generator *)
(* ===================================================================== *)

Section GeneratorFacts.

Variable random : nat -> R.

Lemma pow2_sqr (a : R) : a ^ 2 = a * a.
Proof. ring. Qed.

Lemma moonAttempt_attempts (s : MoonLoop) (k : nat) :
  attempts (moonAttempt random s k) = S (attempts s).
Proof. reflexivity. Qed.

Lemma moonAttempt_valid (s : MoonLoop) (k : nat) :
  valid s = false ->
  valid (moonAttempt random s k) = true ->
  inCrescent (mkPoint (moon_x (moonAttempt random s k))
                      (moon_y (moonAttempt random s k)) 0).
Proof.
  intros Hs. unfold moonAttempt, inCrescent, dist2.
  cbn [valid moon_x moon_y px py]. rewrite !pow2_sqr.
  destruct (Rle_dec _ _) as [Hb | Hb]; [| congruence].
  destruct (Rge_dec _ _) as [Hc | Hc]; [| congruence].
  intros _. split; assumption.
Qed.

Lemma moonLoop_spec (s : MoonLoop) (k : nat) :
  (attempts s <= 20)%nat ->
  let r := moonLoop random s k in
  (attempts s <= attempts (fst r) <= 20)%nat /\
  snd r = (k + 2 * (attempts (fst r) - attempts s))%nat /\
  (valid (fst r) = false -> valid s = false /\ attempts (fst r) = 20%nat) /\
  (valid (fst r) = true ->
     (valid s = true /\ fst r = s) \/
     inCrescent (mkPoint (moon_x (fst r)) (moon_y (fst r)) 0)).
Proof.
  funelim (moonLoop random s k); intros Hle; cbv zeta.
  - destruct (andb_prop _ _ Hcond) as [Hv Hlt].
    apply negb_true_iff in Hv. apply Nat.ltb_lt in Hlt.
    rewrite moonAttempt_attempts in H.
    destruct H as (Hatt & Hk & Hfalse & Htrue); [lia |].
    repeat split; try lia.
    + exact Hv.
    + now apply Hfalse.
    + intros Hr. right. destruct (Htrue Hr) as [[Hva Heq] | Hin].
      * rewrite Heq. now apply moonAttempt_valid.
      * exact Hin.
  - simpl. destruct (proj1 (andb_false_iff _ _) Hcond) as [Hv | Hlt].
    + apply negb_false_iff in Hv. repeat split; try lia; try congruence.
      intros _. now left.
    + apply Nat.ltb_ge in Hlt. repeat split; try lia.
      * destruct (valid s); congruence.
      * intros Hv. now left.
Qed.

(** ** The stores and the loop *)

Lemma store_sized (n i : nat) (q : Particle) (a : Arrays) :
  sized n a -> sized n (store i q a).
Proof.
  unfold sized, store. simpl. rewrite !length_insert. tauto.
Qed.

Lemma particleAt_store_other (i j : nat) (q : Particle) (a : Arrays) :
  j <> i -> particleAt (store i q a) j = particleAt a j.
Proof.
  intros Hji. unfold particleAt, store. simpl.
  rewrite !list_lookup_total_insert_ne by lia. reflexivity.
Qed.

Lemma particleAt_store_same (n i : nat) (q : Particle) (a : Arrays) :
  sized n a -> (i < n)%nat -> particleAt (store i q a) i = q.
Proof.
  intros (Hc & Ht & Hs & Hy) Hi.
  destruct q as [[cx cy cz] [tx ty tz] sz ty']. unfold particleAt, store. simpl.
  rewrite !list_lookup_total_insert_eq by (rewrite ?length_insert; lia).
  rewrite !(list_lookup_total_insert_ne _ (i * 3 + 2)) by lia.
  rewrite !list_lookup_total_insert_eq by (rewrite ?length_insert; lia).
  rewrite !(list_lookup_total_insert_ne _ (i * 3 + 1)) by lia.
  rewrite !list_lookup_total_insert_eq by (rewrite ?length_insert; lia).
  reflexivity.
Qed.

Lemma forLoop_spec (n todo : nat) :
  forall (i : nat) (a : Arrays),
    sized n a -> (i + todo <= n)%nat ->
    let r := forLoop random todo i a (firstDraw random i) in
    sized n (fst r) /\
    snd r = firstDraw random (i + todo) /\
    forall j,
      ((j < i)%nat -> particleAt (fst r) j = particleAt a j) /\
      ((i <= j < i + todo)%nat ->
         particleAt (fst r) j = fst (genParticle random (firstDraw random j))).
Proof.
  induction todo as [| todo IH]; intros i a Ha Hn; cbv zeta.
  - simpl. rewrite Nat.add_0_r. split; [exact Ha |]. split; [reflexivity |].
    intros j. split; [reflexivity | lia].
  - destruct (genParticle random (firstDraw random i)) as [q k'] eqn:Hq.
    assert (Hstep :
      forLoop random (S todo) i a (firstDraw random i) =
      forLoop random todo (S i) (store i q a) (firstDraw random (S i))).
    { cbn [forLoop firstDraw]. unfold bind. rewrite Hq. reflexivity. }
    rewrite Hstep.
    destruct (IH (S i) (store i q a)) as (Hsz & Hk & Hj);
      [now apply store_sized | lia |].
    split; [exact Hsz |]. split; [rewrite Hk; f_equal; lia |].
    intros j. destruct (Hj j) as [Hlt Hge]. split.
    + intros Hji. rewrite Hlt by lia. apply particleAt_store_other. lia.
    + intros Hji. destruct (Nat.eq_dec j i) as [-> | Hne].
      * destruct (Hj i) as [Hlt' _]. rewrite Hlt' by lia.
        rewrite (particleAt_store_same n) by (auto; lia).
        now rewrite Hq.
      * apply Hge. lia.
Qed.

Lemma Float32Array_sized (n : nat) :
  sized n (mkArrays (Float32Array (n * 3)) (Float32Array (n * 3))
                    (Float32Array n) (Float32Array n)).
Proof. unfold sized, Float32Array. simpl. rewrite !length_replicate. tauto. Qed.

(** What the loop leaves at index [i] is the particle it computed from
    the draws starting at [firstDraw i]. *)
Lemma generate_particle (n i : nat) :
  (i < n)%nat ->
  particleAt (generate random n) i =
  fst (genParticle random (firstDraw random i)).
Proof.
  intros Hi. unfold generate.
  destruct (forLoop_spec n n 0 _ (Float32Array_sized n)) as (_ & _ & Hj);
    [lia |].
  apply (Hj i). lia.
Qed.

(** The loop leaves the four arrays of the source's 32000 particles at
    the lengths they were allocated with. *)
Lemma generate_sized : sized count (generate random count).
Proof.
  unfold generate. generalize count. intros n.
  destruct (forLoop_spec n n 0 _ (Float32Array_sized n)) as (Hsz & _);
    [lia | exact Hsz].
Qed.

End GeneratorFacts.

(** ** Plane geometry *)

Lemma dist2_circle (r a : R) : 0 <= r -> dist2 (cos a * r) (sin a * r) = r.
Proof.
  intros Hr. unfold dist2.
  replace (cos a * r * (cos a * r) + sin a * r * (sin a * r))
    with ((Rsqr (sin a) + Rsqr (cos a)) * (r * r)) by (unfold Rsqr; ring).
  rewrite sin2_cos2, Rmult_1_l. now apply sqrt_square.
Qed.

Lemma dist2_le_intro (x y d : R) :
  0 <= d -> x * x + y * y <= d * d -> dist2 x y <= d.
Proof.
  intros Hd H. unfold dist2. rewrite <- (sqrt_square d) by exact Hd.
  now apply sqrt_le_1_alt.
Qed.

Lemma dist2_le_elim (x y d : R) : dist2 x y <= d -> x * x + y * y <= d * d.
Proof.
  unfold dist2. intros H.
  assert (Hnn : 0 <= x * x + y * y) by nra.
  pose proof (sqrt_pos (x * x + y * y)) as Hs.
  rewrite <- (sqrt_sqrt _ Hnn). nra.
Qed.

Lemma dist2_axis (x : R) : dist2 x 0 = Rabs x.
Proof.
  unfold dist2. replace (x * x + 0 * 0) with (Rsqr x) by (unfold Rsqr; ring).
  apply sqrt_Rsqr_abs.
Qed.

Lemma fallback_inCrescent : inCrescent fallback.
Proof.
  unfold inCrescent, fallback, cxBody, rBody, cxCut, rCut. simpl.
  rewrite !dist2_axis. split.
  - rewrite Rabs_left by lra. lra.
  - rewrite Rabs_left by lra. lra.
Qed.

(** The body disk touches the outer ring from inside. *)
Lemma inCrescent_within_outer (pt : Point) :
  inCrescent pt -> dist2 (px pt) (py pt) <= 6.5.
Proof.
  intros [Hbody _]. apply dist2_le_elim in Hbody.
  unfold cxBody, rBody in Hbody.
  apply dist2_le_intro; [lra |]. nra.
Qed.

Lemma lerpPoint_within (r a b t : R) :
  0 <= r -> 0 <= t <= 1 ->
  let pt := lerpPoint (getCirclePoint r a) (getCirclePoint r b) t in
  dist2 (px pt) (py pt) <= r.
Proof.
  intros Hr Ht. simpl. apply dist2_le_intro; [exact Hr |].
  pose proof (sin2_cos2 a) as Ha. pose proof (sin2_cos2 b) as Hb.
  unfold Rsqr in Ha, Hb.
  set (ca := cos a) in *. set (sa := sin a) in *.
  set (cb := cos b) in *. set (sb := sin b) in *.
  assert (Hdot : ca * cb + sa * sb <= 1).
  { pose proof (Rle_0_sqr (ca - cb)) as H1.
    pose proof (Rle_0_sqr (sa - sb)) as H2. unfold Rsqr in H1, H2. nra. }
  replace ((ca * r + (cb * r - ca * r) * t) * (ca * r + (cb * r - ca * r) * t) +
           (sa * r + (sb * r - sa * r) * t) * (sa * r + (sb * r - sa * r) * t))
    with (r * r * ((1 - t) * (1 - t) * (ca * ca + sa * sa)
                   + t * t * (cb * cb + sb * sb)
                   + 2 * t * (1 - t) * (ca * cb + sa * sb))) by ring.
  rewrite (Rplus_comm (ca * ca)), Ha, (Rplus_comm (cb * cb)), Hb.
  assert (Hq : (1 - t) * (1 - t) * 1 + t * t * 1
               + 2 * t * (1 - t) * (ca * cb + sa * sb) <= 1).
  { assert (0 <= t * (1 - t)) by nra. nra. }
  assert (0 <= r * r) by nra. nra.
Qed.

Lemma onStar_within (r offset : R) (pt : Point) :
  0 <= r -> onStar r offset pt -> pz pt = 0 /\ dist2 (px pt) (py pt) <= r.
Proof.
  intros Hr (segment & t & _ & Ht & ->). split; [reflexivity |].
  unfold getPentagramPoint. apply lerpPoint_within; [exact Hr | lra].
Qed.

(** ** Cube root *)

Lemma cbrt_cube (x : R) : cbrt x ^ 3 = x.
Proof.
  unfold cbrt. destruct (Req_dec_T x 0) as [-> | Hx]; [simpl; ring |].
  assert (Hpow : forall y, 0 < y -> Rpower y (/ 3) ^ 3 = y).
  { intros y Hy. rewrite <- Rpower_pow by apply exp_pos.
    rewrite Rpower_mult. replace (/ 3 * INR 3) with 1 by (simpl; lra).
    now apply Rpower_1. }
  destruct (Rlt_dec 0 x) as [Hpos | Hneg].
  - now apply Hpow.
  - replace ((- Rpower (- x) (/ 3)) ^ 3) with (- (Rpower (- x) (/ 3) ^ 3)) by ring.
    rewrite Hpow by lra. ring.
Qed.

Lemma cbrt_unit (u : R) : 0 <= u < 1 -> 0 <= cbrt u < 1.
Proof.
  intros Hu. pose proof (cbrt_cube u) as Hc.
  assert (Hnn : 0 <= cbrt u).
  { unfold cbrt. destruct (Req_dec_T u 0); [lra |].
    destruct (Rlt_dec 0 u); [| lra].
    left. apply exp_pos. }
  split; [exact Hnn |].
  destruct (Rlt_dec (cbrt u) 1) as [Hlt | Hge]; [exact Hlt | exfalso].
  assert (H1 : 1 <= cbrt u) by lra.
  assert (1 <= cbrt u * cbrt u) by nra.
  assert (1 <= cbrt u ^ 3) by (simpl; nra).
  lra.
Qed.

(** ** One particle *)

Lemma segment_range (u : R) : 0 <= u < 1 -> (0 <= floor (u * 5) <= 4)%Z.
Proof.
  intros Hu. unfold floor.
  destruct (base_Int_part (u * 5)) as [Hlo Hhi].
  split.
  - assert (H : (-1 < Int_part (u * 5))%Z) by (apply lt_IZR; simpl; lra). lia.
  - assert (H : (Int_part (u * 5) < 5)%Z) by (apply lt_IZR; simpl; lra). lia.
Qed.

Lemma starPath_at_nth (k : Z) :
  (0 <= k)%Z ->
  starPath_at k = nth (Z.to_nat k) starPath 0%Z /\
  starPath_at (k + 1) = nth (S (Z.to_nat k)) starPath 0%Z.
Proof.
  intros Hk. unfold starPath_at. split; [reflexivity |].
  f_equal. lia.
Qed.

Lemma tagged_bind {A : Type} (m : Gen A) (c : R) (k : nat) :
  (LET pt <- m IN ret (pt, c)) k = ((fst (m k), c), snd (m k)).
Proof. unfold bind, ret. destruct (m k). reflexivity. Qed.

Section ParticleFacts.

Variable random : nat -> R.

Lemma ringPoint_eq (r : R) (k : nat) :
  ringPoint random r k = (getCirclePoint r (random k * PI * 2), S k).
Proof. reflexivity. Qed.

Lemma corePoint_eq (k : nat) :
  corePoint random k =
  (mkPoint (cos (random (S k) * PI * 2) * (random k * 0.5))
           (sin (random (S k) * PI * 2) * (random k * 0.5)) 0, S (S k)).
Proof. reflexivity. Qed.

Lemma genParticle_eq (k : nat) :
  genParticle random k =
  let r := 18 * cbrt (random k) in
  let theta := random (S k) * 2 * PI in
  let phi := acos (2 * random (S (S k)) - 1) in
  let t := targetOf random (random (S (S (S k)))) (S (S (S (S k)))) in
  (mkParticle
     (mkPoint (r * sin phi * cos theta) (r * sin phi * sin theta) (r * cos phi))
     (fst (fst t)) (random (snd t) * 0.3 + 0.05) (snd (fst t)),
   S (snd t)).
Proof.
  unfold genParticle, bind, Math_random, ret.
  destruct (targetOf _ _ _) as [[pt ty] k']. reflexivity.
Qed.

(** The tag is decided by [p] alone: 1 on the crescent branch, which the
    chain of tests reaches for 0.40 <= p < 0.60, and 0 elsewhere. *)
Lemma targetOf_tag (p : R) (k : nat) :
  (0.40 <= p < 0.60 -> snd (fst (targetOf random p k)) = 1) /\
  (~ 0.40 <= p < 0.60 -> snd (fst (targetOf random p k)) = 0).
Proof.
  unfold targetOf.
  repeat (destruct (Rlt_dec p _)); rewrite tagged_bind; simpl;
    split; intros H; try reflexivity; exfalso; lra.
Qed.

Lemma genParticle_tag (k : nat) :
  let p := random (k + 3)%nat in
  (0.40 <= p < 0.60 -> shapeType (fst (genParticle random k)) = 1) /\
  (~ 0.40 <= p < 0.60 -> shapeType (fst (genParticle random k)) = 0).
Proof.
  cbv zeta. rewrite genParticle_eq. cbv zeta. cbn [fst shapeType].
  replace (k + 3)%nat with (S (S (S k))) by lia.
  apply targetOf_tag.
Qed.

Lemma getMoonPoint_cases (k : nat) :
  let r := moonLoop random (mkMoonLoop false 0 0 0) k in
  (attempts (fst r) <= 20)%nat /\
  snd (getMoonPoint random k) = (k + 2 * attempts (fst r))%nat /\
  ((valid (fst r) = true /\
    fst (getMoonPoint random k) = mkPoint (moon_x (fst r)) (moon_y (fst r)) 0 /\
    inCrescent (fst (getMoonPoint random k)))
   \/
   (valid (fst r) = false /\ attempts (fst r) = 20%nat /\
    fst (getMoonPoint random k) = fallback)).
Proof.
  cbv zeta. unfold getMoonPoint.
  pose proof (moonLoop_spec random (mkMoonLoop false 0 0 0) k) as Hspec.
  cbv zeta in Hspec. cbn [attempts valid] in Hspec.
  destruct Hspec as (Hatt & Hk & Hfalse & Htrue); [lia |].
  destruct (moonLoop random (mkMoonLoop false 0 0 0) k) as [s k'].
  cbn [fst snd] in *.
  split; [lia |].
  destruct (valid s) eqn:Hv; cbn [negb fst snd].
  - split; [lia |]. left. split; [reflexivity |]. split; [reflexivity |].
    destruct (Htrue eq_refl) as [[Habs _] | Hin]; [discriminate | exact Hin].
  - split; [lia |]. right. destruct (Hfalse eq_refl) as [_ H20].
    split; [reflexivity |]. split; [exact H20 | reflexivity].
Qed.

Lemma getMoonPoint_inCrescent (k : nat) :
  inCrescent (fst (getMoonPoint random k)) /\ pz (fst (getMoonPoint random k)) = 0.
Proof.
  destruct (getMoonPoint_cases k) as (_ & _ & [(_ & Heq & Hin) | (_ & _ & Heq)]).
  - split; [exact Hin |]. rewrite Heq. reflexivity.
  - rewrite Heq. split; [apply fallback_inCrescent | reflexivity].
Qed.

Hypothesis Huniform : uniform random.

Lemma starPoint_onStar (r offset : R) (k : nat) :
  onStar r offset (fst (starPoint random r offset k)).
Proof.
  unfold starPoint, bind, Math_random, ret. cbn [fst].
  pose proof (segment_range (random k) (Huniform k)) as Hseg.
  destruct (starPath_at_nth (floor (random k * 5))) as [HA HB]; [lia |].
  exists (Z.to_nat (floor (random k * 5))), (random (S k)).
  split; [lia |]. split; [apply Huniform |].
  rewrite HA, HB. reflexivity.
Qed.

Lemma corePoint_within (k : nat) :
  let pt := fst (corePoint random k) in
  pz pt = 0 /\ dist2 (px pt) (py pt) <= 0.5.
Proof.
  rewrite corePoint_eq. cbn [fst px py pz]. split; [reflexivity |].
  pose proof (Huniform k) as Hu.
  rewrite dist2_circle by lra. lra.
Qed.

(** Where the target lies, branch by branch. *)
Lemma targetOf_region (p : R) (k : nat) :
  let pt := fst (fst (targetOf random p k)) in
  let d := dist2 (px pt) (py pt) in
  (p < 0.08 -> d = 6.5) /\
  (0.08 <= p < 0.20 -> onStar 6.5 0 pt) /\
  (0.20 <= p < 0.30 -> onStar 6.5 PI pt) /\
  (0.30 <= p < 0.40 -> d = 3.2) /\
  (0.40 <= p < 0.60 -> inCrescent pt) /\
  (0.60 <= p < 0.72 -> onStar 3.2 0 pt) /\
  (0.72 <= p < 0.82 -> d = 1.2) /\
  (0.82 <= p < 0.92 -> onStar 1.2 PI pt) /\
  (0.92 <= p -> d <= 0.5).
Proof.
  cbv zeta. unfold targetOf.
  repeat (destruct (Rlt_dec p _)); rewrite tagged_bind; cbn [fst];
    repeat (match goal with |- _ /\ _ => split end);
    intros Hp; try (exfalso; lra).
  - rewrite ringPoint_eq. cbn [fst getCirclePoint px py]. apply dist2_circle. lra.
  - apply starPoint_onStar.
  - generalize (starPoint_onStar 6.5 (PI / 1) k).
    generalize (fst (starPoint random 6.5 (PI / 1) k)). intros pt Hpt.
    replace (PI / 1) with PI in Hpt by lra. exact Hpt.
  - rewrite ringPoint_eq. cbn [fst getCirclePoint px py]. apply dist2_circle. lra.
  - apply getMoonPoint_inCrescent.
  - apply starPoint_onStar.
  - rewrite ringPoint_eq. cbn [fst getCirclePoint px py]. apply dist2_circle. lra.
  - apply starPoint_onStar.
  - apply corePoint_within.
Qed.

(** Every branch stays in the plane and within the outer ring. *)
Lemma targetOf_within (p : R) (k : nat) :
  let pt := fst (fst (targetOf random p k)) in
  pz pt = 0 /\ dist2 (px pt) (py pt) <= 6.5.
Proof.
  cbv zeta. unfold targetOf.
  repeat (destruct (Rlt_dec p _)); rewrite tagged_bind; cbn [fst].
  all: try (rewrite ringPoint_eq; cbn [fst getCirclePoint px py pz];
            split; [reflexivity | rewrite dist2_circle by lra; lra]).
  all: try (match goal with
            | |- context [starPoint random ?r ?o ?k] =>
                destruct (onStar_within r o _ ltac:(lra) (starPoint_onStar r o k))
                  as [Hz Hd]; split; [exact Hz | lra]
            end).
  - destruct (getMoonPoint_inCrescent k) as [Hin Hz].
    split; [exact Hz | now apply inCrescent_within_outer].
  - destruct (corePoint_within k) as [Hz Hd]. split; [exact Hz | lra].
Qed.

End ParticleFacts.

(** ** The generated arrays *)

(** C2, as the code has it: the tag of a particle is 1 (moon) exactly when
    its draw [p] falls in the crescent's sub-range, which the chain of tests
    makes 0.40 <= p < 0.60, a fifth of the draws; every other draw gives the
    tag 0. *)
Theorem shape_tag_by_draw (random : nat -> R) (n i : nat) :
  (i < n)%nat ->
  let p := draw random i 3 in
  let tag := shapeType (particleAt (generate random n) i) in
  (tag = 1 <-> 0.40 <= p < 0.60) /\
  (tag = 0 <-> ~ 0.40 <= p < 0.60).
Proof.
  intros Hi p tag. unfold tag, p, draw.
  rewrite generate_particle by exact Hi.
  destruct (genParticle_tag random (firstDraw random i)) as [Hin Hout].
  destruct (Rle_dec 0.40 (random (firstDraw random i + 3)%nat)) as [Hlo | Hlo];
    [destruct (Rlt_dec (random (firstDraw random i + 3)%nat) 0.60) as [Hhi | Hhi] |].
  - rewrite Hin by lra. split; split; intros; lra.
  - rewrite Hout by lra. split; split; intros; lra.
  - rewrite Hout by lra. split; split; intros; lra.
Qed.

Lemma shape_tag_by_draw_witness :
  let random := fun _ : nat => 0.45 in
  let p := draw random 0 3 in
  let tag := shapeType (particleAt (generate random 1) 0) in
  (tag = 1 <-> 0.40 <= p < 0.60) /\
  (tag = 0 <-> ~ 0.40 <= p < 0.60).
Proof.
  apply (shape_tag_by_draw (fun _ : nat => 0.45) 1 0). lia.
Defined.

(** C2 as stated fails: a draw of 0.45 is outside 0.50-0.60 and the
    particle is tagged as moon all the same. *)
Lemma moon_tag_outside_0_50_0_60 :
  let random := fun _ : nat => 0.45 in
  uniform random /\
  draw random 0 3 = 0.45 /\
  ~ 0.50 <= draw random 0 3 < 0.60 /\
  shapeType (particleAt (generate random 1) 0) = 1.
Proof.
  intros random. split; [| split; [| split]].
  - intros k. unfold random. lra.
  - reflexivity.
  - unfold draw, random. lra.
  - rewrite generate_particle by lia.
    apply (genParticle_tag random (firstDraw random 0)).
    unfold random. lra.
Qed.



(** C4: the rejection loop is a total function of the draws; it makes at
    most 20 attempts, two draws each, and then either has accepted a point
    of the crescent or, after exactly 20 rejections, returns the fallback
    point. *)
Theorem rejection_loop_bounded (random : nat -> R) (k : nat) :
  let r := moonLoop random (mkMoonLoop false 0 0 0) k in
  (attempts (fst r) <= 20)%nat /\
  snd (getMoonPoint random k) = (k + 2 * attempts (fst r))%nat /\
  ((valid (fst r) = true /\
    fst (getMoonPoint random k) = mkPoint (moon_x (fst r)) (moon_y (fst r)) 0 /\
    inCrescent (fst (getMoonPoint random k)))
   \/
   (valid (fst r) = false /\ attempts (fst r) = 20%nat /\
    fst (getMoonPoint random k) = fallback)).
Proof. exact (getMoonPoint_cases random k). Qed.

(** C9: the stored chaos position is the point with spherical coordinates
    radius 18 * cbrt(u), azimuth theta = 2 PI v in [0, 2 PI) and polar angle
    phi = acos(2 w - 1), for the particle's first three draws u, v, w; its
    distance from the origin is 18 * cbrt(u), strictly less than 18. *)
Theorem chaos_in_sphere (random : nat -> R) (n i : nat) :
  uniform random ->
  (i < n)%nat ->
  let c := chaosPos (particleAt (generate random n) i) in
  let u := draw random i 0 in
  let r := 18 * cbrt u in
  let theta := draw random i 1 * 2 * PI in
  let phi := acos (2 * draw random i 2 - 1) in
  c = mkPoint (r * sin phi * cos theta) (r * sin phi * sin theta) (r * cos phi) /\
  dist3 (px c) (py c) (pz c) = r /\
  cbrt u ^ 3 = u /\
  0 <= r < 18 /\
  0 <= theta < 2 * PI /\
  0 <= phi <= PI.
Proof.
  intros Hu Hi c u r theta phi.
  assert (Hc : c = mkPoint (r * sin phi * cos theta) (r * sin phi * sin theta)
                           (r * cos phi)).
  { unfold c, r, theta, phi, u, draw. rewrite generate_particle by exact Hi.
    rewrite genParticle_eq. cbv zeta. cbn [fst chaosPos].
    rewrite Nat.add_0_r.
    replace (firstDraw random i + 1)%nat with (S (firstDraw random i)) by lia.
    replace (firstDraw random i + 2)%nat with (S (S (firstDraw random i))) by lia.
    reflexivity. }
  pose proof (cbrt_unit u (Hu _)) as Hcb.
  assert (Hr : 0 <= r < 18) by (unfold r; lra).
  split; [exact Hc |]. split; [| split; [apply cbrt_cube | split; [exact Hr |]]].
  - rewrite Hc. cbn [px py pz]. unfold dist3.
    replace (r * sin phi * cos theta * (r * sin phi * cos theta) +
             r * sin phi * sin theta * (r * sin phi * sin theta) +
             r * cos phi * (r * cos phi))
      with (r * r * (Rsqr (sin phi) * (Rsqr (sin theta) + Rsqr (cos theta))
                     + Rsqr (cos phi))) by (unfold Rsqr; ring).
    rewrite sin2_cos2, Rmult_1_r, sin2_cos2, Rmult_1_r.
    apply sqrt_square. lra.
  - split.
    + pose proof (Hu (firstDraw random i + 1)%nat) as Hv.
      pose proof PI_RGT_0 as Hpi. unfold theta, draw. split; nra.
    + apply acos_bound.
Qed.

Lemma chaos_in_sphere_witness :
  let random := fun _ : nat => 0 in
  let c := chaosPos (particleAt (generate random 1) 0) in
  dist3 (px c) (py c) (pz c) = 18 * cbrt 0.
Proof.
  intros random c.
  assert (Hu : uniform random) by (intros k; unfold random; lra).
  destruct (chaos_in_sphere random 1 0 Hu ltac:(lia)) as (_ & Hd & _).
  exact Hd.
Defined.



(** The cap is reached: with every draw equal to 0 each candidate is the
    lower left corner of the bounding box, outside the body disk, so all 20
    attempts are rejected and the fallback point is returned. *)
Lemma moonLoop_keeps_valid (random : nat -> R) (s : MoonLoop) (k : nat) :
  (forall s' k', valid (moonAttempt random s' k') = valid s') ->
  valid (fst (moonLoop random s k)) = valid s.
Proof.
  intros Hrej. funelim (moonLoop random s k).
  - rewrite H by exact Hrej. apply Hrej.
  - reflexivity.
Qed.

Lemma corner_rejected (s : MoonLoop) (k : nat) :
  valid (moonAttempt (fun _ => 0) s k) = valid s.
Proof.
  unfold moonAttempt. cbn [valid].
  destruct (Rle_dec _ _) as [Hb | Hb]; [exfalso | reflexivity].
  rewrite pow2_sqr in Hb. apply (dist2_le_elim _ _ rBody) in Hb.
  unfold cxBody, rBody in Hb. nra.
Qed.

Example fallback_reached :
  getMoonPoint (fun _ => 0) 0%nat = (fallback, 40%nat).
Proof.
  pose proof (getMoonPoint_cases (fun _ => 0) 0%nat) as Hcases.
  cbv zeta in Hcases.
  pose proof (moonLoop_keeps_valid (fun _ => 0) (mkMoonLoop false 0 0 0) 0%nat
                corner_rejected) as Hv.
  cbn [valid] in Hv.
  destruct Hcases as (_ & Hk & [(Habs & _) | (_ & H20 & Hpt)]); [congruence |].
  rewrite H20 in Hk.
  destruct (getMoonPoint (fun _ => 0) 0%nat) as [pt k']. simpl in *. congruence.
Qed.

(** Before the refs are mounted a frame changes nothing. *)
Lemma useFrame_unmounted (f : Frame) :
  Particles.useFrame (Particles.init false) f = Particles.init false /\
  Ornaments.useFrame (Ornaments.init false) f = Ornaments.init false.
Proof. split; reflexivity. Qed.

(* ===================================================================== *)
(** * Properties of the gesture boundary *)
(* ===================================================================== *)

Section AnalyzeFrameFacts.

Import Gemini.

Variable Error : Type.
Variable apiKey : string.
Variable generateContent : string -> Outcome Error Response.
Variable JSON_parse : string -> Outcome Error HandData.

Let analyze := analyzeFrame Error apiKey generateContent JSON_parse.

(** C6: [analyzeFrame] never throws, and it returns the neutral signal
    [{ state: 'UNKNOWN', x: 0.5, y: 0.5 }] when the API key is missing,
    when the vision call throws, and when the response carries no text
    (also when parsing the text throws). *)
Theorem analyzeFrame_never_throws (base64Image : string) :
  (exists data, analyze base64Image = Returns data) /\
  (apiKey = EmptyString -> analyze base64Image = Returns neutral) /\
  (forall e, generateContent base64Image = Throws e ->
             analyze base64Image = Returns neutral) /\
  (forall t, generateContent base64Image = Returns (mkResponse t) ->
             t = None \/ t = Some EmptyString ->
             analyze base64Image = Returns neutral) /\
  (forall t e, generateContent base64Image = Returns (mkResponse (Some t)) ->
               JSON_parse t = Throws e ->
               analyze base64Image = Returns neutral) /\
  neutral = mkHandData UNKNOWN 0.5 0.5.
Proof.
  unfold analyze, analyzeFrame, try_catch, tryBlock.
  repeat (match goal with |- _ /\ _ => split end).
  - destruct (truthy apiKey); simpl; [| eauto].
    destruct (generateContent base64Image) as [[[t |]] | e]; simpl; eauto.
    destruct (truthy t); simpl; eauto.
    destruct (JSON_parse t); simpl; eauto.
  - intros ->. reflexivity.
  - intros e ->. destruct (truthy apiKey); reflexivity.
  - intros t -> [-> | ->]; destruct (truthy apiKey); reflexivity.
  - intros t e -> Hparse. simpl. rewrite Hparse.
    destruct (truthy apiKey); destruct (truthy t); reflexivity.
  - reflexivity.
Qed.

End AnalyzeFrameFacts.

(* ===================================================================== *)
(** * Further properties of the point generator *)
(* ===================================================================== *)


Lemma dist2_ge_elim (x y d : R) :
  0 <= d -> dist2 x y >= d -> d * d <= x * x + y * y.
Proof.
  unfold dist2. intros Hd H.
  assert (Hnn : 0 <= x * x + y * y) by nra.
  rewrite <- (sqrt_sqrt _ Hnn). nra.
Qed.

Lemma dist2_gt_intro (x y d : R) :
  0 <= d -> d * d < x * x + y * y -> dist2 x y > d.
Proof.
  intros Hd H. destruct (Rle_dec (dist2 x y) d) as [Hle | Hgt]; [| lra].
  apply dist2_le_elim in Hle. lra.
Qed.

Section MoonLoopFacts.

Variable random : nat -> R.

Lemma moonLoop_continue (s : MoonLoop) (k : nat) :
  valid s = false -> (attempts s < 20)%nat ->
  moonLoop random s k = moonLoop random (moonAttempt random s k) (S (S k)).
Proof.
  intros Hv Hlt. funelim (moonLoop random s k).
  - reflexivity.
  - pose proof Hcond as Hc. rewrite Hv in Hc. simpl in Hc.
    apply Nat.ltb_ge in Hc. lia.
Qed.






Lemma getMoonPoint_attempts_positive (k : nat) :
  (1 <= attempts (fst (moonLoop random (mkMoonLoop false 0 0 0) k)) <= 20)%nat.
Proof.
  rewrite moonLoop_continue by (cbn; auto; lia).
  pose proof (moonLoop_spec random
                (moonAttempt random (mkMoonLoop false 0 0 0) k) (S (S k))) as H.
  rewrite moonAttempt_attempts in H. cbn [attempts] in H.
  destruct H as (Hatt & _); [lia |]. exact Hatt.
Qed.

End MoonLoopFacts.




Section DrawCounts.

Variable random : nat -> R.

Lemma targetOf_draws (p : R) (k : nat) :
  (k + 1 <= snd (targetOf random p k) <= k + 40)%nat.
Proof.
  unfold targetOf.
  repeat (destruct (Rlt_dec p _)); rewrite tagged_bind; cbn [snd].
  all: try (cbn; lia).
  destruct (getMoonPoint_cases random k) as (_ & Hk & _).
  pose proof (getMoonPoint_attempts_positive random k) as Hatt.
  rewrite Hk. lia.
Qed.

Lemma genParticle_draws (k : nat) :
  (k + 6 <= snd (genParticle random k) <= k + 45)%nat.
Proof.
  rewrite genParticle_eq. cbv zeta. cbn [snd].
  pose proof (targetOf_draws (random (S (S (S k)))) (S (S (S (S k))))) as H.
  lia.
Qed.

Lemma firstDraw_bounds (n : nat) :
  (6 * n <= firstDraw random n <= 45 * n)%nat.
Proof.
  induction n as [| n IH]; [simpl; lia |].
  cbn [firstDraw].
  pose proof (genParticle_draws (firstDraw random n)) as H. lia.
Qed.

End DrawCounts.

(** X3: generating [n] particles reads between 6 n and 45 n results of
    [Math.random()]: every particle takes at least 6 draws (a ring point)
    and at most 45 (a crescent point after 20 attempts). *)
Theorem generate_draws (random : nat -> R) (n : nat) :
  let a := mkArrays (Float32Array (n * 3)) (Float32Array (n * 3))
                    (Float32Array n) (Float32Array n) in
  let used := snd (forLoop random n 0 a 0%nat) in
  (6 * n <= used <= 45 * n)%nat /\
  (forall i, (i < n)%nat ->
     6 <= firstDraw random (S i) - firstDraw random i <= 45)%nat.
Proof.
  intros a used. split.
  - destruct (forLoop_spec random n n 0 a (Float32Array_sized random n))
      as (_ & Hk & _);
      [lia |].
    unfold used. cbn [firstDraw] in Hk. rewrite Hk. cbn [Nat.add].
    apply firstDraw_bounds.
  - intros i _. cbn [firstDraw].
    pose proof (genParticle_draws random (firstDraw random i)) as H. lia.
Qed.

(** X1: every stored size is [Math.random() * 0.3 + 0.05] for the last draw
    of its particle, hence in [0.05, 0.35). *)
Theorem sizes_in_range (random : nat -> R) (n i : nat) :
  uniform random ->
  (i < n)%nat ->
  let sz := size (particleAt (generate random n) i) in
  sz = random (firstDraw random (S i) - 1)%nat * 0.3 + 0.05 /\
  0.05 <= sz < 0.35.
Proof.
  intros Hu Hi sz. unfold sz. rewrite generate_particle by exact Hi.
  cbn [firstDraw]. rewrite genParticle_eq. cbv zeta. cbn [fst snd size].
  replace (S (snd (targetOf random (random (S (S (S (firstDraw random i)))))
                     (S (S (S (S (firstDraw random i))))))) - 1)%nat
    with (snd (targetOf random (random (S (S (S (firstDraw random i)))))
                 (S (S (S (S (firstDraw random i))))))) by lia.
  split; [reflexivity |].
  match goal with |- context [random ?k * 0.3] => pose proof (Hu k) end. lra.
Qed.

Lemma sizes_in_range_witness :
  let random := fun _ : nat => 0.5 in
  let sz := size (particleAt (generate random 1) 0) in
  sz = random (firstDraw random 1 - 1)%nat * 0.3 + 0.05 /\
  0.05 <= sz < 0.35.
Proof.
  intros random sz.
  apply (sizes_in_range random 1 0); [| lia].
  intros k. unfold random. lra.
Defined.

(** X2: the stores of one particle touch no slot of another and none is
    lost past the end of an array: what is read back at index [i] does not
    depend on how many particles are generated after it. *)
Theorem generate_prefix_stable (random : nat -> R) (n m i : nat) :
  (i < n)%nat -> (n <= m)%nat ->
  particleAt (generate random n) i = particleAt (generate random m) i.
Proof.
  intros Hi Hnm. rewrite !generate_particle by lia. reflexivity.
Qed.

Lemma generate_prefix_stable_witness :
  particleAt (generate (fun _ => 0.5) 1) 0 =
  particleAt (generate (fun _ => 0.5) 2) 0.
Proof.
  apply (generate_prefix_stable (fun _ => 0.5) 1 2 0); lia.
Defined.

Lemma inCrescent_bounds (pt : Point) :
  inCrescent pt ->
  -6.5 <= px pt <= -3.865 /\
  -1.65 <= py pt <= 1.65 /\
  3.2 < dist2 (px pt) (py pt).
Proof.
  intros [Hbody Hcut].
  apply dist2_le_elim in Hbody. apply dist2_ge_elim in Hcut; [| unfold rCut; lra].
  unfold cxBody, rBody in Hbody. unfold cxCut, rCut in Hcut.
  generalize dependent (py pt). generalize (px pt). intros x y Hbody Hcut.
  pose proof (Rle_0_sqr (x - -4.85)) as Hx2. unfold Rsqr in Hx2.
  pose proof (Rle_0_sqr y) as Hy2. unfold Rsqr in Hy2.
  replace ((x - -4.85) * (x - -4.85)) with (x * x + 9.7 * x + 23.5225)
    in Hbody, Hx2 by lra.
  replace ((x - -3.6) * (x - -3.6)) with (x * x + 7.2 * x + 12.96)
    in Hcut by lra.
  assert (Hhi : x <= -3.865) by lra.
  assert (Hlo : -6.5 <= x).
  { destruct (Rle_dec (-6.5) x) as [H | H]; [exact H | exfalso].
    apply Rnot_le_lt in H.
    assert (P : 0 < (-6.5 - x) * (-3.2 - x)) by (apply Rmult_lt_0_compat; lra).
    replace ((-6.5 - x) * (-3.2 - x)) with (x * x + 9.7 * x + 20.8) in P by lra.
    lra. }
  split; [lra |]. split.
  - split; [destruct (Rle_dec (-1.65) y) as [H | H]
           | destruct (Rle_dec y 1.65) as [H | H]];
      try exact H; exfalso; apply Rnot_le_lt in H.
    + assert (P : 0 < (-1.65 - y) * (1.65 - y))
        by (apply Rmult_lt_0_compat; lra).
      replace ((-1.65 - y) * (1.65 - y)) with (y * y - 2.7225) in P by lra.
      lra.
    + assert (P : 0 < (y - 1.65) * (y + 1.65))
        by (apply Rmult_lt_0_compat; lra).
      replace ((y - 1.65) * (y + 1.65)) with (y * y - 2.7225) in P by lra.
      lra.
  - apply dist2_gt_intro; [lra |].
    assert (P : 0 <= (3.865 - x) * (-3.865 - x)) by (apply Rmult_le_pos; lra).
    replace ((3.865 - x) * (-3.865 - x)) with (x * x - 14.938225) in P by lra.
    lra.
Qed.

(** X4: the crescent sits to the left, strictly between the middle ring
    and the outer ring: every stored target whose draw [p] selects the
    crescent has -6.5 <= x <= -3.865, |y| <= 1.65 and a distance from the
    origin above 3.2 and at most 6.5. *)
Theorem crescent_between_rings (random : nat -> R) (n i : nat) :
  uniform random ->
  (i < n)%nat ->
  0.40 <= draw random i 3 < 0.60 ->
  let pt := targetPos (particleAt (generate random n) i) in
  -6.5 <= px pt <= -3.865 /\
  -1.65 <= py pt <= 1.65 /\
  3.2 < dist2 (px pt) (py pt) <= 6.5.
Proof.
  intros Hu Hi Hp pt.
  assert (Hin : inCrescent pt).
  { unfold pt. rewrite generate_particle by exact Hi.
    rewrite genParticle_eq. cbv zeta. cbn [fst targetPos].
    unfold draw in Hp.
    replace (firstDraw random i + 3)%nat
      with (S (S (S (firstDraw random i)))) in Hp by lia.
    apply (targetOf_region random Hu _ _). exact Hp. }
  destruct (inCrescent_bounds pt Hin) as (Hx & Hy & Hd).
  pose proof (inCrescent_within_outer pt Hin). repeat split; lra.
Qed.

Lemma crescent_between_rings_witness :
  let random := fun _ : nat => 0.5 in
  let pt := targetPos (particleAt (generate random 1) 0) in
  -6.5 <= px pt <= -3.865 /\
  -1.65 <= py pt <= 1.65 /\
  3.2 < dist2 (px pt) (py pt) <= 6.5.
Proof.
  intros random pt.
  apply (crescent_between_rings random 1 0).
  - intros k. unfold random. lra.
  - lia.
  - unfold draw, random. lra.
Defined.

(* ===================================================================== *)
(** * Further properties of the blend driver *)
(* ===================================================================== *)




Lemma particles_frame_rotation (s : Particles.State) (f : Frame) (rz : R) :
  0 <= f_delta f ->
  Particles.mesh s = Some rz ->
  exists rz', Particles.mesh (Particles.useFrame s f) = Some rz' /\
              rz - 0.05 * f_delta f <= rz' <= rz.
Proof.
  intros Hd Hm. unfold Particles.useFrame.
  destruct (Particles.shaderRef s); simpl.
  - rewrite Hm. destruct (Rgt_dec _ _); eexists; (split; [reflexivity | lra]).
  - exists rz. split; [exact Hm | lra].
Qed.

Lemma ornaments_frame_rotation (s : Ornaments.State) (f : Frame) (rz : R) :
  0 <= f_delta f ->
  Ornaments.meshRef s = Some rz ->
  exists rz', Ornaments.meshRef (Ornaments.useFrame s f) = Some rz' /\
              rz - 0.05 * f_delta f <= rz' <= rz.
Proof.
  intros Hd Hm. unfold Ornaments.useFrame. rewrite Hm. simpl.
  destruct (Rgt_dec _ _); eexists; (split; [reflexivity | lra]).
Qed.

(** X7: over any run of frames with non-negative deltas the formation
    never turns back: the z-rotation of the particles' mesh and of the
    ornaments' mesh only decreases, and by at most 0.05 rad per second of
    elapsed time. *)
Theorem rotation_monotone_bounded (fs : list Frame) :
  Forall (fun f => 0 <= f_delta f) fs ->
  forall (p : Particles.State) (o : Ornaments.State) (rp ro : R),
    Particles.mesh p = Some rp ->
    Ornaments.meshRef o = Some ro ->
    (exists rp', Particles.mesh (run Particles.useFrame p fs) = Some rp' /\
                 rp - 0.05 * elapsed fs <= rp' <= rp) /\
    (exists ro', Ornaments.meshRef (run Ornaments.useFrame o fs) = Some ro' /\
                 ro - 0.05 * elapsed fs <= ro' <= ro).
Proof.
  induction 1 as [| f fs Hf _ IH]; intros p o rp ro Hp Ho.
  - simpl. split; eexists; (split; [eassumption | lra]).
  - destruct (particles_frame_rotation p f rp Hf Hp) as (rp1 & Hp1 & Hb1).
    destruct (ornaments_frame_rotation o f ro Hf Ho) as (ro1 & Ho1 & Hb2).
    destruct (IH _ _ _ _ Hp1 Ho1) as [(rp' & Hp' & Hbp) (ro' & Ho' & Hbo)].
    simpl. split; eexists; (split; [eassumption | lra]).
Qed.

Lemma rotation_monotone_bounded_witness :
  let fs := [mkFrame FORMED 1 1; mkFrame FORMED 2 1] in
  (exists rp', Particles.mesh (run Particles.useFrame (Particles.init true) fs)
               = Some rp' /\ 0 - 0.05 * elapsed fs <= rp' <= 0) /\
  (exists ro', Ornaments.meshRef (run Ornaments.useFrame (Ornaments.init true) fs)
               = Some ro' /\ 0 - 0.05 * elapsed fs <= ro' <= 0).
Proof.
  intros fs.
  apply (rotation_monotone_bounded fs); try reflexivity.
  repeat constructor; simpl; lra.
Defined.

(** X8: while the formation is forming (target held at 1 from the start,
    a fixed delta with [0 <= delta * 1.5 <= 1]) the ornaments' blend scalar
    never runs ahead of the particles': whenever the ornaments have passed
    their rotation threshold 0.9, the particles have passed theirs. *)
Theorem ornaments_never_ahead (delta : R) (n : nat) :
  0 <= delta * 1.5 <= 1 ->
  let o := run Ornaments.useFrame (Ornaments.init true) (steady FORMED delta n) in
  let p := run Particles.useFrame (Particles.init true) (steady FORMED delta n) in
  Ornaments.currentMix o <= Particles.currentMix p /\
  (Ornaments.currentMix o > 0.9 -> Particles.currentMix p > 0.5).
Proof.
  intros Hd o p. unfold o, p.
  rewrite ornaments_mix_formed, particles_mix_formed.
  assert (Hpow : (1 - delta * 1.5) ^ n <= (1 - delta * 1.2) ^ n)
    by (apply pow_incr; lra).
  split; [lra | intros H; lra].
Qed.

Lemma ornaments_never_ahead_witness :
  let o := run Ornaments.useFrame (Ornaments.init true) (steady FORMED (/ 60) 5) in
  let p := run Particles.useFrame (Particles.init true) (steady FORMED (/ 60) 5) in
  Ornaments.currentMix o <= Particles.currentMix p /\
  (Ornaments.currentMix o > 0.9 -> Particles.currentMix p > 0.5).
Proof.
  apply (ornaments_never_ahead (/ 60) 5). lra.
Defined.

(* ===================================================================== *)
(** * Properties of the ornament instances *)
(* ===================================================================== *)

Section InstanceFacts.

Import Instances.

(** ** The loops over the instances *)

Lemma chain_S (g : nat -> Object3D -> Object3D) (k : nat) :
  forall i o, chain g i (S k) o = g (i + k)%nat (chain g i k o).
Proof.
  induction k as [| k IH]; intros i o.
  - simpl. now rewrite Nat.add_0_r.
  - change (chain g i (S (S k)) o) with (chain g (S i) (S k) (g i o)).
    rewrite IH. simpl. f_equal. lia.
Qed.

Lemma forEach_spec (g : nat -> Object3D -> Object3D)
      (step : nat -> Object3D * list Matrix4 -> Object3D * list Matrix4) :
  (forall i tmp ms, step i (tmp, ms) = (g i tmp, <[i := matrix (g i tmp)]> ms)) ->
  forall todo i tmp ms,
    (i + todo <= length ms)%nat ->
    let r := forEach step todo i (tmp, ms) in
    fst r = chain g i todo tmp /\
    length (snd r) = length ms /\
    forall j,
      ((j < i)%nat \/ (i + todo <= j)%nat -> snd r !!! j = ms !!! j) /\
      ((i <= j < i + todo)%nat ->
         snd r !!! j = matrix (g j (chain g i (j - i) tmp))).
Proof.
  intros Hstep. induction todo as [| todo IH]; intros i tmp ms Hlen; cbv zeta.
  - simpl. split; [reflexivity |]. split; [reflexivity |].
    intros j. split; [reflexivity | lia].
  - cbn [forEach]. rewrite Hstep.
    destruct (IH (S i) (g i tmp) (<[i := matrix (g i tmp)]> ms))
      as (Hfst & Hl & Hj); [rewrite length_insert; lia |].
    rewrite length_insert in Hl.
    split; [exact Hfst |]. split; [exact Hl |].
    intros j. destruct (Hj j) as [Hout Hin]. split.
    + intros Hji. rewrite Hout by lia.
      apply list_lookup_total_insert_ne. lia.
    + intros Hji. destruct (Nat.eq_dec j i) as [-> | Hne].
      * rewrite Hout by lia. rewrite Nat.sub_diag. simpl.
        apply list_lookup_total_insert_eq. lia.
      * rewrite Hin by lia.
        replace (j - i)%nat with (S (j - S i)) by lia. reflexivity.
Qed.

(** ** The data of [useMemo] *)

Variable random : nat -> R.

Lemma dataLoop_spec (todo : nat) :
  forall i d k,
    let r := dataLoop random todo i d k in
    snd r = (k + 4 * todo)%nat /\
    chaosPositions (fst r) =
      chaosPositions d ++ map (fun j => chaosAt random (k + 4 * j)) (seq 0 todo) /\
    targetPositions (fst r) =
      targetPositions d ++ map (fun j => targetPosition (i + j)) (seq 0 todo) /\
    rotationSpeeds (fst r) =
      rotationSpeeds d ++
      map (fun j => random (k + 4 * j + 3)%nat * 0.02 + 0.01) (seq 0 todo).
Proof.
  induction todo as [| todo IH]; intros i d k; cbv zeta.
  - simpl. rewrite !app_nil_r. repeat split; lia.
  - assert (Hstep :
      dataLoop random (S todo) i d k =
      dataLoop random todo (S i)
        (mkData (chaosPositions d ++ [chaosAt random k])
                (targetPositions d ++ [targetPosition i])
                (rotationSpeeds d ++ [random (S (S (S k))) * 0.02 + 0.01]))
        (S (S (S (S k))))) by reflexivity.
    rewrite Hstep. clear Hstep.
    destruct (IH (S i)
      (mkData (chaosPositions d ++ [chaosAt random k])
              (targetPositions d ++ [targetPosition i])
              (rotationSpeeds d ++ [random (S (S (S k))) * 0.02 + 0.01]))
      (S (S (S (S k))))) as (Hk & Hc & Ht & Hs).
    split; [rewrite Hk; lia |].
    rewrite Hc, Ht, Hs. cbn [chaosPositions targetPositions rotationSpeeds].
    rewrite <- !app_assoc. cbn [app seq map].
    rewrite <- !seq_shift, !map_map.
    rewrite !Nat.mul_0_r, !Nat.add_0_r.
    replace (k + 3)%nat with (S (S (S k))) by lia.
    repeat split; do 2 f_equal.
    all: apply map_ext; intros j; first [f_equal; lia | do 3 f_equal; lia].
Qed.

Lemma data_eq :
  data random =
  mkData (map (fun j => chaosAt random (4 * j)) (seq 0 count))
         (map targetPosition (seq 0 count))
         (map (fun j => random (4 * j + 3)%nat * 0.02 + 0.01) (seq 0 count)).
Proof.
  unfold data.
  destruct (dataLoop_spec count 0 (mkData [] [] []) 0) as (_ & Hc & Ht & Hs).
  destruct (fst (dataLoop random count 0 (mkData [] [] []) 0%nat)) as [c t s].
  cbn [chaosPositions targetPositions rotationSpeeds app] in *.
  subst. reflexivity.
Qed.

End InstanceFacts.

Section InstanceFrames.

Import Instances.

Lemma lookup_total_map_seq {A : Type} `{Inhabited A} (f : nat -> A) (n i : nat) :
  (i < n)%nat -> map f (seq 0 n) !!! i = f i.
Proof.
  intros Hi. change (map f (seq 0 n)) with (f <$> seq 0 n).
  rewrite (list_lookup_total_fmap f (seq 0 n) i) by (rewrite length_seq; lia).
  rewrite lookup_total_seq_lt by lia. reflexivity.
Qed.

Lemma data_lookup (random : nat -> R) (i : nat) :
  (i < count)%nat ->
  chaosPositions (data random) !!! i = chaosAt random (4 * i) /\
  targetPositions (data random) !!! i = targetPosition i /\
  rotationSpeeds (data random) !!! i = random (4 * i + 3)%nat * 0.02 + 0.01.
Proof.
  intros Hi. rewrite data_eq.
  cbn [chaosPositions targetPositions rotationSpeeds].
  rewrite !lookup_total_map_seq by exact Hi. auto.
Qed.

Lemma data_lengths (random : nat -> R) :
  length (chaosPositions (data random)) = count /\
  length (targetPositions (data random)) = count /\
  length (rotationSpeeds (data random)) = count.
Proof.
  rewrite data_eq. cbn [chaosPositions targetPositions rotationSpeeds].
  rewrite !length_map, !length_seq. auto.
Qed.

Variable d : Data.

Lemma instanceStep_shape (state : MagicState) (mix t : R) (i : nat) tmp ms :
  instanceStep d state mix t i (tmp, ms) =
  (frameObject d state mix t i tmp,
   <[i := matrix (frameObject d state mix t i tmp)]> ms).
Proof. reflexivity. Qed.

Lemma layoutStep_shape (i : nat) tmp ms :
  layoutStep d i (tmp, ms) =
  (layoutObject d i tmp, <[i := matrix (layoutObject d i tmp)]> ms).
Proof. reflexivity. Qed.

Lemma frameObject_matrix (state : MagicState) (mix t : R) (i : nat) tmp :
  matrix (frameObject d state mix t i tmp) =
  compose
    (mkVector3
       (vx (lerpVectors (chaosPositions d !!! i) (targetPositions d !!! i) mix))
       (vy (lerpVectors (chaosPositions d !!! i) (targetPositions d !!! i) mix))
       (vz (lerpVectors (chaosPositions d !!! i) (targetPositions d !!! i) mix)
        + sin (t * 2.0 + INR i) * 0.2 * (1 - mix * 0.5)))
    (mkEuler (sin (t + INR i) * 0.5)
             (ey (rotation tmp) + rotationSpeeds d !!! i)
             (ez (rotation tmp)))
    (let finalScale :=
       0.5 * (if MagicState_eq_dec state FORMED
              then 1 + sin (t * 4 + INR i) * 0.1 else 1) in
     mkVector3 finalScale finalScale finalScale).
Proof. reflexivity. Qed.

Lemma frameObject_rotation_y (state : MagicState) (mix t : R) (i : nat) tmp :
  ey (rotation (frameObject d state mix t i tmp)) =
  ey (rotation tmp) + rotationSpeeds d !!! i.
Proof. reflexivity. Qed.

Lemma speedSum_S (n : nat) :
  (n < length (rotationSpeeds d))%nat ->
  speedSum d (S n) = speedSum d n + rotationSpeeds d !!! n.
Proof.
  intros Hn. unfold speedSum.
  destruct (lookup_lt_is_Some_2 (rotationSpeeds d) n Hn) as [x Hx].
  rewrite (take_S_r _ _ _ Hx), (list_lookup_total_correct _ _ _ Hx).
  rewrite fold_right_app. simpl.
  generalize (take n (rotationSpeeds d)). intros l.
  induction l as [| a l IH]; simpl; [lra | rewrite IH; lra].
Qed.

Lemma chain_rotation_y (state : MagicState) (mix t : R) (k : nat) tmp :
  (k <= length (rotationSpeeds d))%nat ->
  ey (rotation (chain (frameObject d state mix t) 0 k tmp)) =
  ey (rotation tmp) + speedSum d k.
Proof.
  induction k as [| k IH]; intros Hk.
  - unfold speedSum. simpl. lra.
  - rewrite chain_S, frameObject_rotation_y, IH by lia.
    rewrite speedSum_S by lia. cbn [Nat.add]. lra.
Qed.

Lemma chain_layout_keeps (k : nat) tmp :
  rotation (chain (layoutObject d) 0 k tmp) = rotation tmp /\
  scale (chain (layoutObject d) 0 k tmp) = scale tmp.
Proof.
  induction k as [| k [IHr IHs]]; [split; reflexivity |].
  rewrite chain_S. cbn [Nat.add]. split; [rewrite <- IHr | rewrite <- IHs];
    reflexivity.
Qed.

(** The frame of the full model, with the loop's result spelled out. *)
Lemma useFrame_mounted (s : State) (m : InstancedMesh) (f : Frame) :
  meshRef s = Some m ->
  length (instanceMatrix m) = count ->
  let mix := lerp (currentMix s) (targetVal (f_state f)) (f_delta f * 1.2) in
  let g := frameObject d (f_state f) mix (f_elapsedTime f) in
  exists ms,
    useFrame d s f =
    mkState mix
      (Some (mkInstancedMesh
               (if Rgt_dec mix 0.9 then rotation_z m - f_delta f * 0.05
                else rotation_z m) ms true))
      (chain g 0 count (tempObject s)) /\
    length ms = count /\
    forall i, (i < count)%nat ->
      ms !!! i = matrix (g i (chain g 0 i (tempObject s))).
Proof.
  intros Hm Hlen mix g. unfold useFrame. rewrite Hm. cbv zeta.
  fold mix.
  destruct (forEach_spec g (instanceStep d (f_state f) mix (f_elapsedTime f))
              (instanceStep_shape (f_state f) mix (f_elapsedTime f))
              count 0 (tempObject s) (instanceMatrix m))
    as (Hfst & Hl & Hj); [lia |].
  destruct (forEach _ count 0 _) as [tmp ms]. cbn [fst snd] in *.
  exists ms. split; [rewrite Hfst; reflexivity |]. split; [lia |].
  intros i Hi. destruct (Hj i) as [_ Hin]. rewrite Hin by lia.
  now rewrite Nat.sub_0_r.
Qed.

End InstanceFrames.

Section InstanceTheorems.

Import Instances.

Lemma convex_bound (lo hi a b t : R) :
  lo <= a <= hi -> lo <= b <= hi -> 0 <= t <= 1 ->
  lo <= a + (b - a) * t <= hi.
Proof. intros Ha Hb Ht. split; nra. Qed.

Lemma scaled_sine_bound (s k : R) : -1 <= s <= 1 -> 0 <= k -> - k <= s * k <= k.
Proof. intros Hs Hk. split; nra. Qed.

Lemma circle_coordinate_bound (a r : R) :
  0 <= r -> - r <= cos a * r <= r /\ - r <= sin a * r <= r.
Proof.
  intros Hr. pose proof (COS_bound a) as Hc. pose proof (SIN_bound a) as Hs.
  split; apply scaled_sine_bound; auto.
Qed.

Lemma targetPosition_bounds (i : nat) :
  -6.5 <= vx (targetPosition i) <= 6.5 /\
  -6.5 <= vy (targetPosition i) <= 6.5 /\
  vz (targetPosition i) = 0.
Proof.
  unfold targetPosition. cbv zeta.
  destruct (i <? 5)%nat; [| destruct (i <? 10)%nat]; cbn [vx vy vz].
  - destruct (circle_coordinate_bound (INR i * 2 * PI / 5 + PI / 2) 6.5) as [Hx Hy];
      [lra |]. repeat split; lra.
  - destruct (circle_coordinate_bound
                (INR (i - 5) * 2 * PI / 5 + PI / 2 + PI) 6.5) as [Hx Hy];
      [lra |]. repeat split; lra.
  - destruct (circle_coordinate_bound
                (INR (i - 10) * 2 * PI / 5 + PI / 2) 3.2) as [Hx Hy];
      [lra |]. repeat split; lra.
Qed.

Lemma tip_onStar (r offset : R) (idx : nat) :
  (idx < 5)%nat ->
  onStar r offset (getPentagramPoint r (Z.of_nat idx) offset).
Proof.
  intros Hidx.
  assert (Hseg : exists segment, (segment < 5)%nat /\
                                 nth segment starPath 0%Z = Z.of_nat idx).
  { destruct idx as [| [| [| [| [| idx]]]]]; [| | | | | lia].
    - exists 0%nat. split; [lia | reflexivity].
    - exists 3%nat. split; [lia | reflexivity].
    - exists 1%nat. split; [lia | reflexivity].
    - exists 4%nat. split; [lia | reflexivity].
    - exists 2%nat. split; [lia | reflexivity]. }
  destruct Hseg as (segment & Hlt & Hnth).
  exists segment, 0. split; [exact Hlt |]. split; [lra |].
  rewrite Hnth. unfold lerpPoint, getPentagramPoint, getCirclePoint.
  cbn [px py]. f_equal; ring.
Qed.

Lemma targetPosition_tip (i : nat) :
  (i < count)%nat ->
  pointOf (targetPosition i) =
  getPentagramPoint (if (i <? 10)%nat then 6.5 else 3.2)
                    (Z.of_nat (i mod 5))
                    (if ((5 <=? i) && (i <? 10))%nat then PI else 0).
Proof.
  intros Hi. unfold count in Hi.
  unfold targetPosition, pointOf, getPentagramPoint, getCirclePoint. cbv zeta.
  rewrite <- INR_IZR_INZ.
  destruct (i <? 5)%nat eqn:H5; [| destruct (i <? 10)%nat eqn:H10].
  - apply Nat.ltb_lt in H5.
    replace (i <? 10)%nat with true by (symmetry; apply Nat.ltb_lt; lia).
    replace (5 <=? i)%nat with false by (symmetry; apply Nat.leb_gt; lia).
    rewrite Nat.mod_small by lia. cbn [andb vx vy vz].
    rewrite Rplus_0_r. reflexivity.
  - apply Nat.ltb_ge in H5. apply Nat.ltb_lt in H10.
    replace (5 <=? i)%nat with true by (symmetry; apply Nat.leb_le; lia).
    replace (i mod 5)%nat with (i - 5)%nat
      by (rewrite (Nat.div_mod_eq i 5) at 1;
          assert (i / 5 = 1)%nat by (symmetry; apply (Nat.div_unique i 5 1 (i - 5)); lia);
          lia).
    cbn [andb vx vy vz]. reflexivity.
  - apply Nat.ltb_ge in H5. apply Nat.ltb_ge in H10.
    replace (i mod 5)%nat with (i - 10)%nat
      by (rewrite (Nat.div_mod_eq i 5) at 1;
          assert (i / 5 = 2)%nat by (symmetry; apply (Nat.div_unique i 5 2 (i - 10)); lia);
          lia).
    rewrite andb_false_r. cbn [vx vy vz].
    rewrite Rplus_0_r. reflexivity.
Qed.

(** X9: each of the 15 ornaments has its target on a tip of one of the
    three large stars the particles draw: ornaments 0-4 on the tips of the
    upright star of radius 6.5, 5-9 on those of the star of radius 6.5
    turned by a half-turn, 10-14 on those of the inner star of radius 3.2;
    the target is in the plane z = 0 at that radius from the origin. *)
Theorem ornament_targets_on_star_tips (random : nat -> R) (i : nat) :
  (i < count)%nat ->
  let tgt := pointOf (targetPositions (data random) !!! i) in
  let r := if (i <? 10)%nat then 6.5 else 3.2 in
  let offset := if ((5 <=? i) && (i <? 10))%nat then PI else 0 in
  tgt = getPentagramPoint r (Z.of_nat (i mod 5)) offset /\
  onStar r offset tgt /\
  pz tgt = 0 /\
  dist2 (px tgt) (py tgt) = r.
Proof.
  intros Hi tgt r offset. unfold tgt.
  destruct (data_lookup random i Hi) as (_ & -> & _).
  rewrite (targetPosition_tip i Hi). fold r offset.
  split; [reflexivity |]. split; [| split].
  - apply tip_onStar. apply Nat.mod_upper_bound. lia.
  - reflexivity.
  - unfold getPentagramPoint, getCirclePoint. cbn [px py].
    apply dist2_circle. unfold r. destruct (i <? 10)%nat; lra.
Qed.

Lemma ornament_targets_on_star_tips_witness :
  let tgt := pointOf (targetPositions (data (fun _ => 0.5)) !!! 7%nat) in
  tgt = getPentagramPoint 6.5 2 PI /\
  onStar 6.5 PI tgt /\
  pz tgt = 0 /\
  dist2 (px tgt) (py tgt) = 6.5.
Proof.
  apply (ornament_targets_on_star_tips (fun _ => 0.5) 7). unfold count. lia.
Defined.

(** X10: the data of the 15 ornaments: three lists of 15 entries, read
    from 60 draws; every chaos position lies in the box
    [-15,15) x [-15,15) x [-10,10) and every rotation speed in
    [0.01, 0.03). *)
Theorem ornament_data_ranges (random : nat -> R) (i : nat) :
  uniform random ->
  (i < count)%nat ->
  let d := data random in
  let c := chaosPositions d !!! i in
  let v := rotationSpeeds d !!! i in
  (length (chaosPositions d) = 15%nat /\
   length (targetPositions d) = 15%nat /\
   length (rotationSpeeds d) = 15%nat) /\
  snd (dataLoop random count 0 (mkData [] [] []) 0%nat) = 60%nat /\
  (-15 <= vx c < 15 /\ -15 <= vy c < 15 /\ -10 <= vz c < 10) /\
  0.01 <= v < 0.03.
Proof.
  intros Hu Hi d c v. unfold c, v, d.
  destruct (data_lookup random i Hi) as (-> & _ & ->).
  split; [exact (data_lengths random) |]. split.
  - destruct (dataLoop_spec random count 0 (mkData [] [] []) 0) as (Hk & _).
    exact Hk.
  - unfold chaosAt. cbn [vx vy vz].
    pose proof (Hu (4 * i)%nat). pose proof (Hu (S (4 * i))).
    pose proof (Hu (S (S (4 * i)))). pose proof (Hu (4 * i + 3)%nat).
    repeat split; lra.
Qed.

Lemma ornament_data_ranges_witness :
  let d := data (fun _ => 0.5) in
  let c := chaosPositions d !!! 0%nat in
  let v := rotationSpeeds d !!! 0%nat in
  (length (chaosPositions d) = 15%nat /\
   length (targetPositions d) = 15%nat /\
   length (rotationSpeeds d) = 15%nat) /\
  snd (dataLoop (fun _ => 0.5) count 0 (mkData [] [] []) 0%nat) = 60%nat /\
  (-15 <= vx c < 15 /\ -15 <= vy c < 15 /\ -10 <= vz c < 10) /\
  0.01 <= v < 0.03.
Proof.
  apply (ornament_data_ranges (fun _ => 0.5) 0).
  - intros k. lra.
  - unfold count. lia.
Defined.

Lemma forget_useFrame (d : Data) (s : State) (f : Frame) :
  forget (useFrame d s f) = Ornaments.useFrame (forget s) f.
Proof.
  destruct s as [mix [m |] tmp0]; [| reflexivity].
  unfold useFrame, forget, Ornaments.useFrame.
  cbn [meshRef currentMix tempObject Ornaments.meshRef Ornaments.currentMix].
  destruct (forEach _ count 0 _) as [tmp ms].
  cbn [meshRef currentMix rotation_z]. destruct (Rgt_dec _ _); reflexivity.
Qed.

(** X11: the frame callback that also places the 15 instances drives the
    blend scalar and the z-rotation exactly as [Ornaments.useFrame] does:
    over any run of frames, forgetting the instances and the scratch
    object commutes with running. *)
Theorem instances_refine_ornaments (d : Data) (fs : list Frame) (s : State) :
  forget (run (useFrame d) s fs) = run Ornaments.useFrame (forget s) fs.
Proof.
  revert s. induction fs as [| f fs IH]; intros s; [reflexivity |].
  unfold run in *. cbn [fold_left]. rewrite IH, forget_useFrame. reflexivity.
Qed.

End InstanceTheorems.

Section InstancePlacement.

Import Instances.

Lemma chaosAt_bounds (random : nat -> R) (k : nat) :
  uniform random ->
  -15 <= vx (chaosAt random k) <= 15 /\
  -15 <= vy (chaosAt random k) <= 15 /\
  -10 <= vz (chaosAt random k) <= 10.
Proof.
  intros Hu. unfold chaosAt. cbn [vx vy vz].
  pose proof (Hu k). pose proof (Hu (S k)). pose proof (Hu (S (S k))).
  repeat split; lra.
Qed.

(** X12: on a mounted frame that leaves the blend scalar [mix] in [0,1],
    instance [i] is placed between its chaos position and its target, plus
    a float along z of at most [0.2 * (1 - mix / 2)]: it stays in the box
    |x|, |y| <= 15, |z| <= 10.2; once the blend scalar is 1 it sits on its
    target in x and y, within 0.1 of the plane.  Its scale is uniform,
    0.5 while the prop [state] is not FORMED and within [0.45, 0.55] while it
    is. *)
Theorem instance_placement (random : nat -> R) (s : State) (m : InstancedMesh)
        (f : Frame) (i : nat) :
  uniform random ->
  meshRef s = Some m ->
  length (instanceMatrix m) = count ->
  (i < count)%nat ->
  let s' := useFrame (data random) s f in
  let mix := currentMix s' in
  0 <= mix <= 1 ->
  exists m',
    meshRef s' = Some m' /\
    let M := instanceMatrix m' !!! i in
    let p := m_position M in
    let tgt := targetPosition i in
    (-15 <= vx p <= 15 /\ -15 <= vy p <= 15 /\ -10.2 <= vz p <= 10.2) /\
    (mix = 1 -> vx p = vx tgt /\ vy p = vy tgt /\ -0.1 <= vz p <= 0.1) /\
    (vy (m_scale M) = vx (m_scale M) /\ vz (m_scale M) = vx (m_scale M)) /\
    0.45 <= vx (m_scale M) <= 0.55 /\
    (f_state f = CHAOS -> vx (m_scale M) = 0.5).
Proof.
  intros Hu Hm Hlen Hi s' mix.
  destruct (useFrame_mounted (data random) s m f Hm Hlen) as (ms & Heq & _ & Hms).
  cbv zeta in Heq, Hms. unfold mix, s'. rewrite Heq. cbn [currentMix meshRef].
  set (mx := lerp (currentMix s) (targetVal (f_state f)) (f_delta f * 1.2)) in *.
  intros Hmix. eexists. split; [reflexivity |].
  cbn [instanceMatrix]. rewrite (Hms i Hi), frameObject_matrix.
  cbn [m_position m_scale vx vy vz lerpVectors].
  destruct (data_lookup random i Hi) as (-> & -> & _).
  destruct (chaosAt_bounds random (4 * i) Hu) as (Hcx & Hcy & Hcz).
  destruct (targetPosition_bounds i) as (Htx & Hty & Htz).
  set (c := chaosAt random (4 * i)) in *. set (tg := targetPosition i) in *.
  pose proof (SIN_bound (f_elapsedTime f * 2.0 + INR i)) as Hs1.
  pose proof (SIN_bound (f_elapsedTime f * 4 + INR i)) as Hs2.
  assert (Hk : 0 <= 0.2 * (1 - mx * 0.5) <= 0.2) by lra.
  assert (Hfl : - (0.2 * (1 - mx * 0.5))
                <= sin (f_elapsedTime f * 2.0 + INR i) * 0.2 * (1 - mx * 0.5)
                <= 0.2 * (1 - mx * 0.5)).
  { rewrite Rmult_assoc. apply scaled_sine_bound; lra. }
  assert (Hx : -15 <= vx c + (vx tg - vx c) * mx <= 15)
    by (apply convex_bound; lra).
  assert (Hy : -15 <= vy c + (vy tg - vy c) * mx <= 15)
    by (apply convex_bound; lra).
  assert (Hz : -10 <= vz c + (vz tg - vz c) * mx <= 10)
    by (apply convex_bound; lra).
  split; [repeat split; lra |]. split; [| split; [split; reflexivity |]].
  - intros H1. rewrite H1 in *.
    repeat split; try ring; rewrite Htz; lra.
  - destruct (MagicState_eq_dec (f_state f) FORMED) as [Hf | Hf].
    + split; [lra |]. intros Hc. rewrite Hc in Hf. discriminate.
    + split; [lra |]. intros _. lra.
Qed.

Lemma instance_placement_witness :
  let s := mkState 0 (Some (mkInstancedMesh 0 (replicate 15 inhabitant) false))
                   newObject3D in
  let s' := useFrame (data (fun _ => 0.5)) s (mkFrame FORMED 0.5 0.5) in
  exists m',
    meshRef s' = Some m' /\
    let M := instanceMatrix m' !!! 3%nat in
    let p := m_position M in
    let tgt := targetPosition 3 in
    (-15 <= vx p <= 15 /\ -15 <= vy p <= 15 /\ -10.2 <= vz p <= 10.2) /\
    (currentMix s' = 1 -> vx p = vx tgt /\ vy p = vy tgt /\ -0.1 <= vz p <= 0.1) /\
    (vy (m_scale M) = vx (m_scale M) /\ vz (m_scale M) = vx (m_scale M)) /\
    0.45 <= vx (m_scale M) <= 0.55 /\
    (f_state (mkFrame FORMED 0.5 0.5) = CHAOS -> vx (m_scale M) = 0.5).
Proof.
  intros s s'.
  apply (instance_placement (fun _ => 0.5) s
           (mkInstancedMesh 0 (replicate 15 inhabitant) false)
           (mkFrame FORMED 0.5 0.5) 3).
  - intros k. lra.
  - reflexivity.
  - reflexivity.
  - unfold count. lia.
  - unfold useFrame. cbn [meshRef s]. cbv zeta.
    destruct (forEach _ count 0 _) as [tmp ms]. cbn [currentMix s f_state f_delta].
    unfold lerp, targetVal. simpl. lra.
Defined.

Lemma speedSum_bounds (random : nat -> R) (n : nat) :
  uniform random ->
  (n <= count)%nat ->
  0.01 * INR n <= speedSum (data random) n <= 0.03 * INR n.
Proof.
  intros Hu. induction n as [| n IH]; intros Hn.
  - unfold speedSum. simpl. lra.
  - destruct (data_lengths random) as (_ & _ & Hl).
    rewrite speedSum_S by lia.
    destruct (data_lookup random n) as (_ & _ & ->); [lia |].
    pose proof (Hu (4 * n + 3)%nat). rewrite S_INR. specialize (IH ltac:(lia)).
    lra.
Qed.

(** X13: the scratch object is shared by all instances and never reset, so
    the y-rotations add up across instances and frames: on a mounted frame
    instance [i] gets the scratch object's y-rotation from before the frame
    plus the speeds of instances 0 to [i], and the frame leaves the scratch
    object turned by the sum of all 15 speeds, between 0.15 and 0.45
    radians. *)
Theorem shared_rotation_accumulates (random : nat -> R) (s : State)
        (m : InstancedMesh) (f : Frame) :
  uniform random ->
  meshRef s = Some m ->
  length (instanceMatrix m) = count ->
  let d := data random in
  let s' := useFrame d s f in
  let y0 := ey (rotation (tempObject s)) in
  ey (rotation (tempObject s')) = y0 + speedSum d count /\
  0.15 <= speedSum d count <= 0.45 /\
  exists m',
    meshRef s' = Some m' /\
    forall i, (i < count)%nat ->
      ey (m_rotation (instanceMatrix m' !!! i)) = y0 + speedSum d (S i).
Proof.
  intros Hu Hm Hlen d s' y0.
  destruct (useFrame_mounted d s m f Hm Hlen) as (ms & Heq & _ & Hms).
  cbv zeta in Heq. unfold s'. rewrite Heq. cbn [tempObject meshRef].
  destruct (data_lengths random) as (_ & _ & Hl).
  split; [| split].
  - apply chain_rotation_y. fold d in Hl. lia.
  - pose proof (speedSum_bounds random count Hu (le_n _)) as Hb.
    unfold count in Hb at 1 4. simpl in Hb. fold d in Hb. lra.
  - eexists. split; [reflexivity |]. intros i Hi. cbn [instanceMatrix].
    rewrite (Hms i Hi), frameObject_matrix. cbn [m_rotation ey].
    rewrite chain_rotation_y by (fold d in Hl; lia).
    rewrite speedSum_S by (fold d in Hl; lia). unfold y0. lra.
Qed.

Lemma shared_rotation_accumulates_witness :
  let d := data (fun _ => 0.5) in
  let s := mkState 0 (Some (mkInstancedMesh 0 (replicate 15 inhabitant) false))
                   newObject3D in
  let s' := useFrame d s (mkFrame FORMED 0.5 0.5) in
  let y0 := ey (rotation (tempObject s)) in
  ey (rotation (tempObject s')) = y0 + speedSum d count /\
  0.15 <= speedSum d count <= 0.45 /\
  exists m',
    meshRef s' = Some m' /\
    forall i, (i < count)%nat ->
      ey (m_rotation (instanceMatrix m' !!! i)) = y0 + speedSum d (S i).
Proof.
  intros d s.
  apply (shared_rotation_accumulates (fun _ => 0.5) s
           (mkInstancedMesh 0 (replicate 15 inhabitant) false)
           (mkFrame FORMED 0.5 0.5)).
  - intros k. lra.
  - reflexivity.
  - reflexivity.
Defined.

(** X14: the layout effect places every instance at its chaos position,
    with the rotation and the scale the scratch object has at that time,
    and marks the instance matrices for upload; it leaves the blend scalar
    and the mesh rotation alone. *)
Theorem layout_places_at_chaos (d : Data) (s : State) (m : InstancedMesh) :
  meshRef s = Some m ->
  length (instanceMatrix m) = count ->
  exists ms,
    meshRef (useLayoutEffect d s) =
      Some (mkInstancedMesh (rotation_z m) ms true) /\
    currentMix (useLayoutEffect d s) = currentMix s /\
    length ms = count /\
    forall i, (i < count)%nat ->
      ms !!! i = compose (chaosPositions d !!! i) (rotation (tempObject s))
                         (scale (tempObject s)).
Proof.
  intros Hm Hlen. unfold useLayoutEffect. rewrite Hm.
  destruct (forEach_spec (layoutObject d) (layoutStep d) (layoutStep_shape d)
              count 0 (tempObject s) (instanceMatrix m))
    as (_ & Hl & Hj); [lia |].
  destruct (forEach _ count 0 _) as [tmp ms]. cbn [fst snd] in *.
  exists ms. cbn [meshRef currentMix].
  split; [reflexivity |]. split; [reflexivity |]. split; [lia |].
  intros i Hi. destruct (Hj i) as [_ Hin]. rewrite Hin by lia.
  rewrite Nat.sub_0_r.
  destruct (chain_layout_keeps d i (tempObject s)) as [Hr Hs].
  unfold layoutObject at 1, layoutStep. cbn [fst updateMatrix matrix position
    rotation scale]. rewrite Hr, Hs. reflexivity.
Qed.

Lemma layout_places_at_chaos_witness :
  let d := data (fun _ => 0.5) in
  let m := mkInstancedMesh 0 (replicate 15 inhabitant) false in
  let s := mkState 0 (Some m) newObject3D in
  exists ms,
    meshRef (useLayoutEffect d s) =
      Some (mkInstancedMesh (rotation_z m) ms true) /\
    currentMix (useLayoutEffect d s) = currentMix s /\
    length ms = count /\
    forall i, (i < count)%nat ->
      ms !!! i = compose (chaosPositions d !!! i) (rotation (tempObject s))
                         (scale (tempObject s)).
Proof.
  intros d m s. apply (layout_places_at_chaos d s m); reflexivity.
Defined.

End InstancePlacement.

(* ===================================================================== *)
(** * Properties of the particle shaders *)
(* ===================================================================== *)

Section ShaderFacts.

Import Shader.

Lemma mix_bound (lo hi x y a : R) :
  lo <= x <= hi -> lo <= y <= hi -> 0 <= a <= 1 -> lo <= mix x y a <= hi.
Proof. unfold mix. intros Hx Hy Ha. split; nra. Qed.

Lemma abs_le_dist3 (x y z : R) :
  - dist3 x y z <= x <= dist3 x y z /\
  - dist3 x y z <= y <= dist3 x y z /\
  - dist3 x y z <= z <= dist3 x y z.
Proof.
  unfold dist3.
  assert (Hnn : 0 <= x * x + y * y + z * z) by nra.
  pose proof (sqrt_pos (x * x + y * y + z * z)) as Hs.
  pose proof (sqrt_sqrt _ Hnn) as Hsq.
  set (d := sqrt (x * x + y * y + z * z)) in *.
  repeat split; nra.
Qed.

Lemma abs_le_dist2 (x y : R) :
  - dist2 x y <= x <= dist2 x y /\ - dist2 x y <= y <= dist2 x y.
Proof.
  unfold dist2.
  assert (Hnn : 0 <= x * x + y * y) by nra.
  pose proof (sqrt_pos (x * x + y * y)) as Hs.
  pose proof (sqrt_sqrt _ Hnn) as Hsq.
  set (d := sqrt (x * x + y * y)) in *.
  repeat split; nra.
Qed.

Variable modelViewMatrix : vec4 -> vec4.
Variable projectionMatrix : vec4 -> vec4.

(** X15: for a blend uniform in [0,1] the vertex shader moves a vertex, in
    each coordinate, by at most the noise amplitude away from the blend of
    its chaos and target positions, and that amplitude falls linearly from
    0.5 at [uMix = 0] to 0.02 at [uMix = 1]. *)
Theorem vertex_noise_bounded (uTime uMix : R) (a : Attributes) :
  0 <= uMix <= 1 ->
  let v := vertexMain modelViewMatrix projectionMatrix uTime uMix a in
  let p0 := mix3 (aChaosPos a) (aTargetPos a) uMix in
  let amp := 0.5 - 0.48 * uMix in
  0.02 <= amp <= 0.5 /\
  - amp <= px (pos v) - px p0 <= amp /\
  - amp <= py (pos v) - py p0 <= amp /\
  - amp <= pz (pos v) - pz p0 <= amp.
Proof.
  intros Hu v p0 amp. unfold v, vertexMain. cbv zeta. cbn [pos px py pz].
  fold p0. assert (Hamp : mix 0.5 0.02 uMix = amp) by (unfold mix, amp; lra).
  rewrite Hamp. assert (Ha : 0.02 <= amp <= 0.5) by (unfold amp; lra).
  split; [exact Ha |].
  set (x1 := px p0 + sin (uTime * 1.0 + py p0 * 0.5) * amp).
  pose proof (scaled_sine_bound _ amp (SIN_bound (uTime * 1.0 + py p0 * 0.5))
                ltac:(lra)) as H1.
  pose proof (scaled_sine_bound _ amp (COS_bound (uTime * 0.8 + x1 * 0.5))
                ltac:(lra)) as H2.
  pose proof (scaled_sine_bound _ amp (SIN_bound (uTime * 1.5 + x1))
                ltac:(lra)) as H3.
  unfold x1 in *. repeat split; lra.
Qed.

End ShaderFacts.

Lemma generated_chaos_coordinates (random : nat -> R) (n i : nat) :
  uniform random -> (i < n)%nat ->
  let c := chaosPos (particleAt (generate random n) i) in
  -18 <= px c <= 18 /\ -18 <= py c <= 18 /\ -18 <= pz c <= 18.
Proof.
  intros Hu Hi c. unfold c. rewrite generate_particle by exact Hi.
  rewrite genParticle_eq. cbv zeta. cbn [fst chaosPos px py pz].
  pose proof (cbrt_unit _ (Hu (firstDraw random i))) as Hc.
  set (r := 18 * cbrt (random (firstDraw random i))).
  assert (Hr : 0 <= r <= 18) by (unfold r; lra).
  set (phi := acos _). set (theta := _ * 2 * PI).
  pose proof (SIN_bound phi) as Hsp. pose proof (COS_bound phi) as Hcp.
  pose proof (SIN_bound theta) as Hst. pose proof (COS_bound theta) as Hct.
  pose proof (scaled_sine_bound _ r Hsp (proj1 Hr)) as H1.
  pose proof (scaled_sine_bound _ r Hcp (proj1 Hr)) as H2.
  assert (H3 : - r <= r * sin phi * cos theta <= r).
  { split; [destruct (Rle_dec 0 (r * sin phi)) | destruct (Rle_dec 0 (r * sin phi))];
      nra. }
  assert (H4 : - r <= r * sin phi * sin theta <= r).
  { split; [destruct (Rle_dec 0 (r * sin phi)) | destruct (Rle_dec 0 (r * sin phi))];
      nra. }
  repeat split; lra.
Qed.

Lemma generated_target_coordinates (random : nat -> R) (n i : nat) :
  uniform random -> (i < n)%nat ->
  let t := targetPos (particleAt (generate random n) i) in
  -6.5 <= px t <= 6.5 /\ -6.5 <= py t <= 6.5 /\ pz t = 0.
Proof.
  intros Hu Hi t. unfold t. rewrite generate_particle by exact Hi.
  rewrite genParticle_eq. cbv zeta. cbn [fst targetPos].
  destruct (targetOf_within random Hu
              (random (S (S (S (firstDraw random i)))))
              (S (S (S (S (firstDraw random i)))))) as [Hz Hd].
  match goal with |- context [px ?q] => destruct (abs_le_dist2 (px q) (py q)) end.
  repeat split; lra.
Qed.

Lemma generated_size (random : nat -> R) (n i : nat) :
  uniform random -> (i < n)%nat ->
  0.05 <= size (particleAt (generate random n) i) < 0.35.
Proof.
  intros Hu Hi. rewrite generate_particle by exact Hi.
  rewrite genParticle_eq. cbv zeta. cbn [fst size].
  match goal with |- context [random ?k * 0.3] => pose proof (Hu k) end. lra.
Qed.

Lemma generated_tag (random : nat -> R) (n i : nat) :
  (i < n)%nat ->
  (0.40 <= draw random i 3 < 0.60 ->
   shapeType (particleAt (generate random n) i) = 1) /\
  (~ 0.40 <= draw random i 3 < 0.60 ->
   shapeType (particleAt (generate random n) i) = 0).
Proof.
  intros Hi. rewrite generate_particle by exact Hi.
  exact (genParticle_tag random (firstDraw random i)).
Qed.

Section GeneratedVertices.

Import Shader.

Variable modelViewMatrix : vec4 -> vec4.
Variable projectionMatrix : vec4 -> vec4.

(** X16: for a blend uniform in [0,1], every generated particle is drawn
    within 18.5 of the origin in each coordinate, and once the blend uniform
    is 1 within 0.02 of its target in each coordinate, so within 0.02 of the
    plane of the circle. *)
Theorem generated_vertex_bounded (random : nat -> R) (n i : nat) (uTime uMix : R) :
  uniform random ->
  (i < n)%nat ->
  0 <= uMix <= 1 ->
  let a := attributes (generate random n) i in
  let v := vertexMain modelViewMatrix projectionMatrix uTime uMix a in
  (-18.5 <= px (pos v) <= 18.5 /\
   -18.5 <= py (pos v) <= 18.5 /\
   -18.5 <= pz (pos v) <= 18.5) /\
  (uMix = 1 ->
   -0.02 <= px (pos v) - px (aTargetPos a) <= 0.02 /\
   -0.02 <= py (pos v) - py (aTargetPos a) <= 0.02 /\
   -0.02 <= pz (pos v) <= 0.02).
Proof.
  intros Hu Hi Hmix a v.
  destruct (generated_chaos_coordinates random n i Hu Hi) as (Hcx & Hcy & Hcz).
  destruct (generated_target_coordinates random n i Hu Hi) as (Htx & Hty & Htz).
  cbv zeta in *. unfold v, a, attributes, vertexMain. cbv zeta.
  cbn [pos px py pz aChaosPos aTargetPos mix3].
  set (q := particleAt (generate random n) i) in *.
  assert (Hamp : 0.02 <= mix 0.5 0.02 uMix <= 0.5) by (unfold mix; lra).
  assert (Hx0 : -18 <= mix (px (chaosPos q)) (px (targetPos q)) uMix <= 18)
    by (apply mix_bound; lra).
  assert (Hy0 : -18 <= mix (py (chaosPos q)) (py (targetPos q)) uMix <= 18)
    by (apply mix_bound; lra).
  assert (Hz0 : -18 <= mix (pz (chaosPos q)) (pz (targetPos q)) uMix <= 18)
    by (apply mix_bound; lra).
  set (x0 := mix (px (chaosPos q)) (px (targetPos q)) uMix) in *.
  set (y0 := mix (py (chaosPos q)) (py (targetPos q)) uMix) in *.
  set (z0 := mix (pz (chaosPos q)) (pz (targetPos q)) uMix) in *.
  set (amp := mix 0.5 0.02 uMix) in *.
  set (x1 := x0 + sin (uTime * 1.0 + y0 * 0.5) * amp).
  pose proof (scaled_sine_bound _ amp (SIN_bound (uTime * 1.0 + y0 * 0.5))
                ltac:(lra)) as H1.
  pose proof (scaled_sine_bound _ amp (COS_bound (uTime * 0.8 + x1 * 0.5))
                ltac:(lra)) as H2.
  pose proof (scaled_sine_bound _ amp (SIN_bound (uTime * 1.5 + x1))
                ltac:(lra)) as H3.
  unfold x1 in *. split; [repeat split; lra |].
  intros H1'. subst uMix.
  assert (amp = 0.02) by (unfold amp, mix; lra).
  assert (x0 = px (targetPos q)) by (unfold x0, mix; lra).
  assert (y0 = py (targetPos q)) by (unfold y0, mix; lra).
  assert (z0 = 0) by (unfold z0, mix; lra).
  repeat split; lra.
Qed.

(** X17: the colour a generated particle is drawn in: every component is in
    [0,1] for a blend uniform in [0,1]; at [uMix = 1] the colour is the
    twinkle factor times pale gold (1, 0.85, 0.4) exactly for the particles
    whose draw [p] selected the crescent, and otherwise times white gold
    (1, 0.95, 0.8) for sizes above 0.3 and times pink (1, 0.7, 0.85) for the
    rest. *)
Theorem generated_vertex_colour (random : nat -> R) (n i : nat) (uTime uMix : R) :
  uniform random ->
  (i < n)%nat ->
  0 <= uMix <= 1 ->
  let a := attributes (generate random n) i in
  let v := vertexMain modelViewMatrix projectionMatrix uTime uMix a in
  let alpha := 0.5 + 0.5 * sin (uTime * 3.0 + px (aChaosPos a) * 10.0) in
  let palette :=
    if Rle_dec 0.40 (draw random i 3)
    then if Rlt_dec (draw random i 3) 0.60 then mkPoint 1 0.85 0.4
         else if Rgt_dec (aSize a) 0.3 then mkPoint 1 0.95 0.8
              else mkPoint 1 0.7 0.85
    else if Rgt_dec (aSize a) 0.3 then mkPoint 1 0.95 0.8
         else mkPoint 1 0.7 0.85 in
  0 <= alpha <= 1 /\
  (0 <= px (vColor v) <= 1 /\ 0 <= py (vColor v) <= 1 /\ 0 <= pz (vColor v) <= 1) /\
  (uMix = 1 ->
   vColor v = mkPoint (px palette * alpha) (py palette * alpha) (pz palette * alpha)).
Proof.
  intros Hu Hi Hmix a v alpha palette.
  destruct (generated_tag random n i Hi) as [Hmoon Hstd].
  assert (Ha : 0 <= alpha <= 1).
  { pose proof (SIN_bound (uTime * 3.0 + px (aChaosPos a) * 10.0)).
    unfold alpha. lra. }
  split; [exact Ha |].
  unfold v, vertexMain. cbv zeta. cbn [vColor]. fold alpha.
  assert (Htag : aShapeType a = shapeType (particleAt (generate random n) i))
    by reflexivity.
  split.
  - set (cf := if Rgt_dec (aShapeType a) 0.5 then _ else _).
    assert (Hcf : (0 <= px cf <= 1 /\ 0 <= py cf <= 1 /\ 0 <= pz cf <= 1)).
    { unfold cf. repeat (destruct (Rgt_dec _ _)); cbn [px py pz]; lra. }
    destruct Hcf as (Hr & Hg & Hb). cbn [mix3 px py pz].
    assert (0 <= mix 0.8 (px cf) uMix <= 1) by (apply mix_bound; lra).
    assert (0 <= mix 0.9 (py cf) uMix <= 1) by (apply mix_bound; lra).
    assert (0 <= mix 1.0 (pz cf) uMix <= 1) by (apply mix_bound; lra).
    repeat split; nra.
  - intros H1. subst uMix. unfold palette.
    destruct (Rle_dec 0.40 (draw random i 3)) as [Hlo | Hlo];
      [destruct (Rlt_dec (draw random i 3) 0.60) as [Hhi | Hhi] |].
    + rewrite Htag, Hmoon by lra.
      destruct (Rgt_dec 1 0.5); [| lra].
      cbn [mix3 px py pz]. unfold mix. f_equal; lra.
    + rewrite Htag, Hstd by lra.
      destruct (Rgt_dec 0 0.5); [lra |].
      destruct (Rgt_dec 1 0.8); [| lra].
      destruct (Rgt_dec (aSize a) 0.3); cbn [mix3 px py pz]; unfold mix;
        f_equal; lra.
    + rewrite Htag, Hstd by lra.
      destruct (Rgt_dec 0 0.5); [lra |].
      destruct (Rgt_dec 1 0.8); [| lra].
      destruct (Rgt_dec (aSize a) 0.3); cbn [mix3 px py pz]; unfold mix;
        f_equal; lra.
Qed.

(** X18: a generated particle in front of the camera (view-space z below 0)
    is drawn with a positive point size of at most 50.4 divided by its
    distance along the view axis, for every blend uniform in [0,1]. *)
Theorem generated_point_size (random : nat -> R) (n i : nat) (uTime uMix : R) :
  uniform random ->
  (i < n)%nat ->
  0 <= uMix <= 1 ->
  let a := attributes (generate random n) i in
  let v := vertexMain modelViewMatrix projectionMatrix uTime uMix a in
  let depth :=
    - z4 (modelViewMatrix (mkVec4 (px (pos v)) (py (pos v)) (pz (pos v)) 1.0)) in
  0 < depth ->
  0 < gl_PointSize v <= 50.4 / depth.
Proof.
  intros Hu Hi Hmix a v depth Hd.
  pose proof (generated_size random n i Hu Hi) as Hs.
  assert (Hm : 0.7 <= mix 1.2 0.7 uMix <= 1.2) by (apply mix_bound; lra).
  assert (Hps : gl_PointSize v =
                size (particleAt (generate random n) i) * mix 1.2 0.7 uMix
                * (120.0 / depth)) by reflexivity.
  rewrite Hps. clear Hps.
  revert Hd Hs Hm.
  generalize (size (particleAt (generate random n) i)), (mix 1.2 0.7 uMix).
  clearbody depth. clear. intros sz sm Hd Hs Hm.
  assert (Hinv : 0 < / depth) by (now apply Rinv_0_lt_compat).
  unfold Rdiv. set (k := / depth) in *. clearbody k.
  assert (Hq : 0 < sz * sm <= 0.42).
  { split; [apply Rmult_lt_0_compat; lra |].
    apply Rle_trans with (0.35 * sm);
      [apply Rmult_le_compat_r; lra | lra]. }
  replace (sz * sm * (120.0 * k)) with (120 * (sz * sm) * k) by lra.
  set (q := sz * sm) in *. clearbody q.
  replace (50.4 * k) with (120 * 0.42 * k) by lra.
  split.
  - apply Rmult_lt_0_compat; lra.
  - apply Rmult_le_compat_r; lra.
Qed.

End GeneratedVertices.

Lemma vertex_noise_bounded_witness :
  let a := Shader.mkAttributes (mkPoint 1 2 3) (mkPoint 0 1 0) 0.1 0 in
  let v := Shader.vertexMain (fun p => p) (fun p => p) 0 1 a in
  let p0 := Shader.mix3 (Shader.aChaosPos a) (Shader.aTargetPos a) 1 in
  let amp := 0.5 - 0.48 * 1 in
  0.02 <= amp <= 0.5 /\
  - amp <= px (Shader.pos v) - px p0 <= amp /\
  - amp <= py (Shader.pos v) - py p0 <= amp /\
  - amp <= pz (Shader.pos v) - pz p0 <= amp.
Proof.
  intros a. apply (vertex_noise_bounded (fun p => p) (fun p => p) 0 1 a). lra.
Defined.

Lemma generated_vertex_bounded_witness :
  let a := Shader.attributes (generate (fun _ => 0.5) 1) 0 in
  let v := Shader.vertexMain (fun p => p) (fun p => p) 0 1 a in
  -18.5 <= px (Shader.pos v) <= 18.5 /\
  -0.02 <= pz (Shader.pos v) <= 0.02.
Proof.
  intros a v.
  destruct (generated_vertex_bounded (fun p => p) (fun p => p)
              (fun _ => 0.5) 1 0 0 1) as [(Hx & _) Hone].
  - intros k. lra.
  - lia.
  - lra.
  - split; [exact Hx |]. apply Hone. reflexivity.
Defined.

Lemma generated_vertex_colour_witness :
  let a := Shader.attributes (generate (fun _ => 0.5) 1) 0 in
  let v := Shader.vertexMain (fun p => p) (fun p => p) 0 1 a in
  let alpha := 0.5 + 0.5 * sin (0 * 3.0 + px (Shader.aChaosPos a) * 10.0) in
  Shader.vColor v = mkPoint (1 * alpha) (0.85 * alpha) (0.4 * alpha).
Proof.
  intros a v alpha.
  destruct (generated_vertex_colour (fun p => p) (fun p => p)
              (fun _ => 0.5) 1 0 0 1) as (_ & _ & Hone).
  - intros k. lra.
  - lia.
  - lra.
  - cbv zeta in Hone. unfold alpha, v, a. rewrite (Hone eq_refl).
    unfold draw. cbv beta.
    destruct (Rle_dec 0.40 0.5); [| lra].
    destruct (Rlt_dec 0.5 0.60); [| lra]. reflexivity.
Defined.

Lemma generated_point_size_witness :
  let a := Shader.attributes (generate (fun _ => 0.5) 1) 0 in
  let v := Shader.vertexMain (fun _ => Shader.mkVec4 0 0 (-1) 1) (fun p => p)
                             0 1 a in
  0 < Shader.gl_PointSize v <= 50.4 / - -1.
Proof.
  intros a v.
  apply (generated_point_size (fun _ => Shader.mkVec4 0 0 (-1) 1) (fun p => p)
           (fun _ => 0.5) 1 0 0 1).
  - intros k. lra.
  - lia.
  - lra.
  - cbn [Shader.z4]. lra.
Defined.

Section FragmentFacts.

Import Shader.

Lemma smoothstep_unit (d : R) :
  0 <= d <= 1 ->
  smoothstep 0.0 1.0 d = d * d * (3 - 2 * d) /\
  0 <= d * d * (3 - 2 * d) <= 1.
Proof.
  intros Hd. unfold smoothstep, clamp. cbv zeta.
  replace (1.0 - 0.0) with 1 by lra. replace (d - 0.0) with d by lra.
  unfold Rdiv. rewrite Rinv_1, Rmult_1_r.
  rewrite Rmax_left by lra. rewrite Rmin_left by lra.
  split; [reflexivity |].
  assert (H1 : 0 <= d * d) by nra.
  assert (H2 : 0 <= (1 - d) * (1 - d)) by nra.
  split; [apply Rmult_le_pos; lra |].
  assert (H3 : 0 <= (1 - d) * (1 - d) * (1 + 2 * d))
    by (apply Rmult_le_pos; lra).
  replace (d * d * (3 - 2 * d)) with (1 - (1 - d) * (1 - d) * (1 + 2 * d)) by ring.
  lra.
Qed.

Lemma pow_unit (x y : R) :
  0 <= x <= 1 -> 0 < y ->
  0 <= pow x y <= 1 /\ (x = 0 -> pow x y = 0) /\ (x = 1 -> pow x y = 1).
Proof.
  intros Hx Hy. unfold pow.
  destruct (Req_dec_T x 0) as [Hx0 | Hx0].
  - repeat split; try lra.
  - assert (Hpos : 0 < x) by lra.
    unfold Rpower.
    assert (Hln : ln x <= 0).
    { rewrite <- ln_1. destruct (Req_dec_T x 1) as [-> | Hne]; [lra |].
      left. apply ln_increasing; lra. }
    assert (Hle : exp (y * ln x) <= 1).
    { rewrite <- exp_0. destruct (Req_dec_T (y * ln x) 0) as [-> | Hne]; [lra |].
      left. apply exp_increasing. nra. }
    pose proof (exp_pos (y * ln x)).
    repeat split; try lra.
    intros ->. rewrite ln_1, Rmult_0_r. apply exp_0.
Qed.

(** X19: the fragment shader keeps exactly the fragments inside the unit
    circle of the point (squared distance from the centre at most 1, in
    coordinates where the point spans [-1,1]), leaves the colour as the
    vertex shader passed it, and gives them an alpha in [0,1] that is 1 at
    the centre and 0 on the rim. *)
Theorem fragment_alpha (vColor : vec3) (gl_PointCoord : R * R) :
  let cx := 2.0 * fst gl_PointCoord - 1.0 in
  let cy := 2.0 * snd gl_PointCoord - 1.0 in
  let d := cx * cx + cy * cy in
  (d > 1 -> fragmentMain vColor gl_PointCoord = None) /\
  (d <= 1 ->
   exists alpha,
     fragmentMain vColor gl_PointCoord =
       Some (mkVec4 (px vColor) (py vColor) (pz vColor) alpha) /\
     0 <= alpha <= 1 /\
     (d = 0 -> alpha = 1) /\
     (d = 1 -> alpha = 0)).
Proof.
  intros cx cy d. unfold fragmentMain. cbv zeta. fold cx cy. fold d.
  assert (Hd0 : 0 <= d) by (unfold d; nra).
  split; intros Hd.
  - destruct (Rgt_dec d 1.0) as [_ | Hn]; [reflexivity | lra].
  - destruct (Rgt_dec d 1.0) as [Hg | _]; [lra |].
    destruct (smoothstep_unit d ltac:(lra)) as [-> Hs].
    destruct (pow_unit (1.0 - d * d * (3 - 2 * d)) 1.5 ltac:(lra) ltac:(lra))
      as (Hp & Hz & Ho).
    eexists. split; [reflexivity |]. split; [exact Hp |]. split.
    + intros H0. apply Ho. rewrite H0. lra.
    + intros H1. apply Hz. rewrite H1. lra.
Qed.

End FragmentFacts.

(* ===================================================================== *)
(** * Properties of the capture loop *)
(* ===================================================================== *)

Section SplitFacts.

Import Vision.

Lemma split_nonempty (sep : ascii) (s : string) : split sep s <> [].
Proof.
  destruct s as [| c s]; simpl; [discriminate |].
  destruct (Ascii.eqb c sep); [discriminate |].
  destruct (split sep s); discriminate.
Qed.

Lemma split_no_separator (sep : ascii) (s : string) :
  occurs sep s = false -> split sep s = [s].
Proof.
  induction s as [| c s IH]; simpl; [reflexivity |].
  intros H. apply orb_false_iff in H as [Hc Hs].
  rewrite Hc, (IH Hs). reflexivity.
Qed.

Lemma split_append (sep : ascii) (h p : string) :
  occurs sep h = false ->
  split sep (h ++ String sep p) = h :: split sep p.
Proof.
  induction h as [| c h IH]; simpl; intros H.
  - rewrite Ascii.eqb_refl. reflexivity.
  - apply orb_false_iff in H as [Hc Hs].
    rewrite Hc, (IH Hs). reflexivity.
Qed.

(** X20: splitting at a separator loses nothing: joining the pieces with
    the separator gives the string back, there is always at least one
    piece and no piece contains the separator.  For a data URL
    [header,payload] whose header and payload have no comma,
    [split(',')[1]] is the payload. *)
Theorem split_round_trip (sep : ascii) (s : string) :
  String.concat (String sep EmptyString) (split sep s) = s /\
  (1 <= length (split sep s))%nat /\
  Forall (fun piece => occurs sep piece = false) (split sep s) /\
  (forall header payload,
     s = (header ++ String sep payload)%string ->
     occurs sep header = false -> occurs sep payload = false ->
     nth_error (split sep s) 1 = Some payload).
Proof.
  split; [| split; [| split]].
  - induction s as [| c s IH]; simpl; [reflexivity |].
    destruct (Ascii.eqb c sep) eqn:Hc.
    + apply Ascii.eqb_eq in Hc. subst c.
      pose proof (split_nonempty sep s) as Hne.
      destruct (split sep s) as [| h t] eqn:Hs; [congruence |].
      simpl in *. rewrite IH. reflexivity.
    + pose proof (split_nonempty sep s) as Hne.
      destruct (split sep s) as [| h t] eqn:Hs; [congruence |].
      simpl in *. destruct t; simpl in *; rewrite <- IH; reflexivity.
  - pose proof (split_nonempty sep s). destruct (split sep s); simpl; [congruence | lia].
  - induction s as [| c s IH]; simpl; [repeat constructor |].
    destruct (Ascii.eqb c sep) eqn:Hc; [constructor; [reflexivity | exact IH] |].
    destruct (split sep s) as [| h t]; [repeat constructor; simpl; now rewrite Hc |].
    inversion IH as [| ? ? Hh Ht]; subst. constructor; [| exact Ht].
    simpl. now rewrite Hc, Hh.
  - intros header payload -> Hh Hp.
    rewrite split_append by exact Hh. rewrite split_no_separator by exact Hp.
    reflexivity.
Qed.

End SplitFacts.

Section ControllerFacts.

Import Gemini Vision.

Variable Error : Type.
Variable analyze : option string -> Outcome Error HandData.
Variable onUpdate : HandData -> Outcome Error unit.

Lemma captureAndAnalyze_cases (isProcessing : bool) (refs : Refs Error) :
  let r := captureAndAnalyze analyze onUpdate isProcessing refs in
  snd r = Returns tt /\
  (isProcessing = true \/ videoRef refs = None \/ canvasRef refs = None \/
   (exists rs, videoRef refs = Some rs /\ rs <> 4%Z) -> fst r = []) /\
  (fst r = [] \/
   exists mid,
     fst r = SetIsProcessing true :: mid ++ [SetIsProcessing false] /\
     (mid = [] \/ mid = [ConsoleError] \/
      exists canvas url d,
        canvasRef refs = Some canvas /\ toDataURL canvas = Returns url /\
        analyze (nth_error (split ","%char url) 1) = Returns d /\
        (mid = [OnUpdate d] \/ mid = [OnUpdate d; ConsoleError]))) /\
  isProcessingAfter false (fst r) = false.
Proof.
  cbv zeta. unfold captureAndAnalyze.
  destruct refs as [[rs |] [[ctx toURL] |]]; cbn [videoRef canvasRef];
    try (repeat split; auto; intros; reflexivity).
  destruct isProcessing.
  { repeat split; auto. }
  destruct (rs =? 4)%Z eqn:Hrs; cbn [negb].
  2: { repeat split; auto. }
  apply Z.eqb_eq in Hrs. subst rs.
  assert (Hskip :
    forall effs : list Effect,
      false = true \/ Some 4%Z = None \/
      Some (mkCanvas ctx toURL) = None \/
      (exists rs, Some 4%Z = Some rs /\ rs <> 4%Z) -> effs = []).
  { intros effs [H | [H | [H | (rs & H & Hne)]]]; try discriminate.
    injection H as <-. congruence. }
  cbn [getContext toDataURL].
  destruct ctx as [[draw] |]; cbn [drawImage].
  2: { cbn. repeat split; auto. right. exists []. auto. }
  destruct draw as [[] | e].
  2: { cbn. repeat split; auto. right. exists [ConsoleError]. auto. }
  destruct toURL as [url | e].
  2: { cbn. repeat split; auto. right. exists [ConsoleError]. auto. }
  cbn [cbind call emit app].
  destruct (analyze (nth_error (split ","%char url) 1)) as [d | e] eqn:Han.
  2: { cbn. repeat split; auto. right. exists [ConsoleError]. auto. }
  destruct (onUpdate d) as [[] | e] eqn:Hup.
  - cbn. repeat split; auto. right. exists [OnUpdate d].
    split; [reflexivity |]. right. right. eauto 10.
  - cbn. repeat split; auto. right.
    exists [OnUpdate d; ConsoleError].
    split; [reflexivity |]. right. right. eauto 10.
Qed.


End ControllerFacts.

Section EndToEnd.

Import Gemini Vision.

Variable Error : Type.
Variable apiKey : string.
Variable generateContent : string -> Outcome Error Response.
Variable JSON_parse : string -> Outcome Error HandData.
Variable analyze : option string -> Outcome Error HandData.
Variable onUpdate : HandData -> Outcome Error unit.

Lemma analyzeFrame_source_fails (base64Image : string) :
  (exists e, generateContent base64Image = Throws e) ->
  Gemini.analyzeFrame Error apiKey generateContent JSON_parse base64Image
  = Returns neutral.
Proof.
  intros [e He]. unfold Gemini.analyzeFrame, try_catch, tryBlock.
  rewrite He. destruct (truthy apiKey); reflexivity.
Qed.

Lemma consumed_neutral (effs : list Effect) :
  Forall (fun ef => forall d, ef = OnUpdate d -> d = neutral) effs ->
  consumed neutral effs = neutral.
Proof.
  unfold consumed. induction 1 as [| ef effs Hef _ IH]; [reflexivity |].
  simpl. destruct ef as [b | d |]; try exact IH.
  rewrite (Hef d eq_refl). exact IH.
Qed.

Hypothesis Hanalyze :
  forall s, analyze (Some s) =
            Gemini.analyzeFrame Error apiKey generateContent JSON_parse s.
Hypothesis Hfails : forall img, exists e, generateContent img = Throws e.

Lemma occurs_split (sep : ascii) (s : string) :
  occurs sep s = true -> exists h b t, split sep s = h :: b :: t.
Proof.
  induction s as [| c s IH]; simpl; [discriminate |].
  destruct (Ascii.eqb c sep) eqn:Hc; simpl.
  - intros _. pose proof (split_nonempty sep s) as Hne.
    destruct (split sep s) as [| h t]; [congruence | eauto].
  - intros H. destruct (IH H) as (h & b0 & t & ->). eauto.
Qed.

Lemma capture_updates_neutral (isProcessing : bool) (refs : Refs Error) :
  (forall canvas url, canvasRef refs = Some canvas ->
                      toDataURL canvas = Returns url ->
                      occurs ","%char url = true) ->
  Forall (fun ef => forall d, ef = OnUpdate d -> d = neutral)
         (fst (captureAndAnalyze analyze onUpdate isProcessing refs)).
Proof.
  intros Hurl.
  destruct (captureAndAnalyze_cases Error analyze onUpdate isProcessing refs)
    as (_ & _ & Hshape & _).
  cbv zeta in Hshape.
  destruct Hshape as [-> | (mid & -> & Hmid)]; [constructor |].
  assert (Hmid' : Forall (fun ef => forall d, ef = OnUpdate d -> d = neutral) mid).
  { destruct Hmid as [-> | [-> | (canvas & url & d & Hc & Hu & Han & Hm)]].
    - constructor.
    - repeat constructor. intros d H. discriminate.
    - destruct (occurs_split _ _ (Hurl canvas url Hc Hu)) as (h & b0 & t & Hs).
      rewrite Hs in Han. cbn [nth_error] in Han.
      rewrite Hanalyze, analyzeFrame_source_fails in Han by apply Hfails.
      injection Han as <-.
      destruct Hm as [-> | ->]; repeat constructor; intros d H;
        try discriminate; now injection H as <-. }
  constructor; [intros d H; discriminate |].
  apply Forall_app. split; [exact Hmid' |].
  repeat constructor. intros d H. discriminate.
Qed.

(** X22: end to end, when the vision call throws on every image: over any
    number of poll cycles that do not overlap, whatever the refs, the
    canvas and the parent's callback do, every signal handed to [onUpdate]
    is the neutral one, so a parent that starts from the neutral signal
    stays on it.  Every data URL is taken to contain its comma. *)
Theorem failing_source_stays_neutral (cycles : list (Refs Error)) :
  Forall (fun refs =>
            forall canvas url, canvasRef refs = Some canvas ->
                               toDataURL canvas = Returns url ->
                               occurs ","%char url = true) cycles ->
  forall isProcessing,
    let effs := poll analyze onUpdate isProcessing cycles in
    Forall (fun ef => forall d, ef = OnUpdate d -> d = neutral) effs /\
    consumed neutral effs = neutral.
Proof.
  intros Hcycles isProcessing effs.
  assert (Hall : Forall (fun ef => forall d, ef = OnUpdate d -> d = neutral) effs).
  { unfold effs. clear effs. revert isProcessing.
    induction Hcycles as [| refs cycles Hrefs _ IH]; intros isProcessing;
      [constructor |].
    cbn [poll]. apply Forall_app. split; [| apply IH].
    now apply capture_updates_neutral. }
  split; [exact Hall | now apply consumed_neutral].
Qed.

End EndToEnd.

Lemma failing_source_stays_neutral_witness :
  let canvas :=
    Vision.mkCanvas (Some (Vision.mkContext2D (Gemini.Returns tt)))
                    (Gemini.Returns "data:image/jpeg;base64,AAAA"%string) in
  let refs := Vision.mkRefs (Some 4%Z) (Some canvas) in
  let generateContent :=
    fun _ : string => @Gemini.Throws unit Gemini.Response tt in
  let JSON_parse := fun _ : string => @Gemini.Throws unit Gemini.HandData tt in
  let analyze := fun img : option string =>
    match img with
    | Some s => Gemini.analyzeFrame unit "key"%string generateContent JSON_parse s
    | None => Gemini.Returns Gemini.neutral
    end in
  let effs := Vision.poll analyze (fun _ => Gemini.Returns tt) false
                          [refs; refs; refs] in
  Forall (fun ef => forall d, ef = Vision.OnUpdate d -> d = Gemini.neutral) effs /\
  Vision.consumed Gemini.neutral effs = Gemini.neutral.
Proof.
  intros canvas refs generateContent JSON_parse analyze.
  apply (failing_source_stays_neutral unit "key"%string generateContent
           JSON_parse analyze (fun _ => Gemini.Returns tt)).
  - intros s. reflexivity.
  - intros img. exists tt. reflexivity.
  - repeat constructor; intros c url Hc Hu;
      injection Hc as <-; injection Hu as <-; reflexivity.
Defined.
